(** * AWS DynamoDB chat store: typed-value codec and history adapter

    A shallow embedding of
    [llama_index/storage/chat_store/aws/utils.py] ([serialize], [deserialize])
    and [llama_index/storage/chat_store/aws/base.py] ([AWSDynamoChatStore]),
    with the properties of the specification stated over it.

    Conventions of the embedding.
    - A Python [str] is a [string]; the development covers ASCII text, on
      which [str.isdigit] is the test for the characters 0 to 9.
    - A Python [int] is a [Z] (unbounded); the interpreter's limit on the
      number of digits converted by [str] and [int] is not modelled.
    - A Python [float] is a binary64 value, a [spec_float] rounded with
      precision 53 and maximal exponent 1024.
    - A Python [dict] is an insertion-ordered association list with
      distinct keys; [dict_set] is item assignment.
    - An exception is a value of [exn]; a computation that may raise
      returns a [result].
    - The table is a finite map from (partition key, row key) to the
      [msg] attribute; a call on it is a function from the store to an
      outcome and a store, and the requests sent are recorded. *)

From Stdlib Require Import ZArith List Bool Ascii String Lia.
From Stdlib Require Import Floats.SpecFloat.
From stdpp Require Import base option list sorting strings gmap.

Import ListNotations.
Local Open Scope string_scope.
Local Open Scope Z_scope.
Local Open Scope list_scope.

(** ** Python built-ins used by the code *)

Module Py.

(** *** Text of integers: [str(n)] *)

Definition digit_char (d : Z) : ascii := ascii_of_nat (48 + Z.to_nat d).

Global Arguments digit_char : simpl never.

(** The decimal digits of a non-negative [n], least significant first,
    pushed in front of [acc]; [fuel] bounds the number of digits. *)
Fixpoint str_digits (fuel : nat) (n : Z) (acc : string) : string :=
  match fuel with
  | O => acc
  | S fuel' =>
      let acc' := String (digit_char (n mod 10)) acc in
      if n <? 10 then acc' else str_digits fuel' (n / 10) acc'
  end.

Definition str_nonneg (n : Z) : string :=
  str_digits (S (Z.to_nat (Z.log2 n))) n EmptyString.

(** [str(n)] for an [int]. *)
Definition str_int (n : Z) : string :=
  if n <? 0 then String "-" (str_nonneg (- n)) else str_nonneg n.

(** [str(b)] for a [bool]. *)
Definition str_bool (b : bool) : string := if b then "True" else "False".

Fixpoint zeros (k : nat) : string :=
  match k with
  | O => EmptyString
  | S k' => String "0" (zeros k')
  end.

(** Left padding with the character 0 up to [width]. *)
Definition zfill (width : nat) (s : string) : string :=
  zeros (width - String.length s)%nat +:+ s.

(** The last [w] decimal digits of [n] pushed in front of [acc]: the text
    of a number below [10^w] in a field of [w] digits. *)
Fixpoint fixed_digits (w : nat) (n : Z) (acc : string) : string :=
  match w with
  | O => acc
  | S w' => fixed_digits w' (n / 10) (String (digit_char (n mod 10)) acc)
  end.

(** [format(idx, "010")]: sign-aware zero padding to ten characters. *)
Definition format_010 (idx : Z) : string :=
  if idx <? 0 then String "-" (zfill 9 (str_nonneg (- idx)))
  else zfill 10 (str_nonneg idx).

(** *** [str.isdigit] and [int(t)] *)

Definition is_digit (c : ascii) : bool :=
  let n := Z.of_nat (nat_of_ascii c) in (48 <=? n) && (n <=? 57).

Definition digit_val (c : ascii) : Z := Z.of_nat (nat_of_ascii c) - 48.

Fixpoint all_digits (s : string) : bool :=
  match s with
  | EmptyString => true
  | String c s' => is_digit c && all_digits s'
  end.

(** [t.isdigit()]: at least one character, all of them digits. *)
Definition isdigit (t : string) : bool :=
  match t with
  | EmptyString => false
  | _ => all_digits t
  end.

Fixpoint int_digits (acc : Z) (t : string) : Z :=
  match t with
  | EmptyString => acc
  | String c t' => int_digits (10 * acc + digit_val c) t'
  end.

(** [int(t)] on a text that satisfies [isdigit], its only call site. *)
Definition int_of_str (t : string) : Z := int_digits 0 t.

(** *** Floats: [float(t)] and [str(x)] *)

Definition prec : Z := 53.
Definition emax : Z := 1024.

(** The binary64 value nearest to [m * 10^e] (ties to even), with sign
    [neg]: what the interpreter's correctly rounded conversion returns. *)
Definition round_decimal (neg : bool) (m e : Z) : spec_float :=
  if m <=? 0 then S754_zero neg
  else if 0 <=? e then binary_round prec emax neg (Z.to_pos (m * 10 ^ e)) 0
  else
    let d := 10 ^ (- e) in
    let s := Z.log2 d + 60 in
    let q := (m * 2 ^ s) / d in
    let r := (m * 2 ^ s) mod d in
    let loc := if r =? 0 then loc_Exact else loc_Inexact (2 * r ?= d) in
    binary_round_aux prec emax neg q (- s) loc.

Definition sf_eqb (x y : spec_float) : bool :=
  match x, y with
  | S754_zero s1, S754_zero s2 => Bool.eqb s1 s2
  | S754_infinity s1, S754_infinity s2 => Bool.eqb s1 s2
  | S754_nan, S754_nan => true
  | S754_finite s1 m1 e1, S754_finite s2 m2 e2 =>
      Bool.eqb s1 s2 && (m1 =? m2)%positive && (e1 =? e2)
  | _, _ => false
  end.

(** White space as [float] strips it: tab to carriage return, the four
    separators 28 to 31, and the space. *)
Definition is_space (c : ascii) : bool :=
  let n := Z.of_nat (nat_of_ascii c) in
  ((9 <=? n) && (n <=? 13)) || ((28 <=? n) && (n <=? 32)).

Fixpoint lstrip (cs : list ascii) : list ascii :=
  match cs with
  | c :: r => if is_space c then lstrip r else cs
  | [] => []
  end.

Definition strip (cs : list ascii) : list ascii :=
  rev (lstrip (rev (lstrip cs))).

Definition is_underscore (c : ascii) : bool := Ascii.eqb c "_".

(** An underscore is accepted only between two digits. *)
Fixpoint underscores_ok (prev_digit prev_under : bool) (cs : list ascii) : bool :=
  match cs with
  | [] => negb prev_under
  | c :: r =>
      if is_underscore c then prev_digit && underscores_ok false true r
      else (negb prev_under || is_digit c) && underscores_ok (is_digit c) false r
  end.

Definition lower (c : ascii) : ascii :=
  let n := nat_of_ascii c in
  if ((65 <=? n) && (n <=? 90))%nat then ascii_of_nat (n + 32) else c.

Fixpoint span_digits (cs : list ascii) : list ascii * list ascii :=
  match cs with
  | c :: r =>
      if is_digit c then let (ds, rest) := span_digits r in (c :: ds, rest)
      else ([], cs)
  | [] => ([], [])
  end.

Definition digits_val (ds : list ascii) : Z :=
  fold_left (fun acc c => 10 * acc + digit_val c) ds 0.

Definition split_sign (cs : list ascii) : bool * list ascii :=
  match cs with
  | c :: r =>
      if Ascii.eqb c "-" then (true, r)
      else if Ascii.eqb c "+" then (false, r) else (false, cs)
  | [] => (false, [])
  end.

(** Digits, an optional point and digits, an optional exponent; at least
    one digit in the mantissa and nothing left over. *)
Definition parse_decimal (neg : bool) (cs : list ascii) : option spec_float :=
  let (ip, r1) := span_digits cs in
  let (fp, r2) :=
    match r1 with
    | c :: r => if Ascii.eqb c "." then span_digits r else ([], r1)
    | [] => ([], r1)
    end in
  match ip ++ fp with
  | [] => None
  | mant =>
      let m := digits_val mant in
      let scale := - Z.of_nat (List.length fp) in
      match r2 with
      | [] => Some (round_decimal neg m scale)
      | c :: r3 =>
          if Ascii.eqb (lower c) "e" then
            let (eneg, r4) := split_sign r3 in
            match span_digits r4 with
            | ((_ :: _) as ed, []) =>
                let ex := digits_val ed in
                Some (round_decimal neg m ((if eneg then - ex else ex) + scale))
            | _ => None
            end
          else None
      end
  end.

(** [float(t)]: [None] stands for the [ValueError] the interpreter raises. *)
Definition float_of_str (t : string) : option spec_float :=
  let raw := list_ascii_of_string t in
  if negb (underscores_ok false false raw) then None
  else
    let cs := strip (filter (fun c => negb (is_underscore c)) raw) in
    let (neg, body) := split_sign cs in
    let word := string_of_list_ascii (map lower body) in
    if String.eqb word "inf" || String.eqb word "infinity" then Some (S754_infinity neg)
    else if String.eqb word "nan" then Some S754_nan
    else parse_decimal neg body.

(** The value [m * 2^e] as a fraction. *)
Definition ratio (m : positive) (e : Z) : Z * Z :=
  if 0 <=? e then (Zpos m * 2 ^ e, 1) else (Zpos m, 2 ^ (- e)).

Definition scale10 (v : Z * Z) (k : Z) : Z * Z :=
  let (n, d) := v in
  if 0 <=? k then (n * 10 ^ k, d) else (n, d * 10 ^ (- k)).

(** The least [p], searched upwards from [p], with [v < 10^p]. *)
Fixpoint find_decpt (fuel : nat) (v : Z * Z) (p : Z) : Z :=
  match fuel with
  | O => p
  | S fuel' =>
      let (n, d) := scale10 v (- p) in
      if n <? d then p else find_decpt fuel' v (p + 1)
  end.

(** The position of the decimal point of [m * 2^e]: the search starts
    below the estimate that the binary logarithm gives. *)
Definition decpt (m : positive) (e : Z) : Z :=
  let b := Zpos (digits2_pos m) + e in
  find_decpt 8 (ratio m e) ((b - 1) * 30103 / 100000 - 1).

(** Of [lo] and [lo + 1], the integer nearest to [sn / sd], the even one
    on a tie. *)
Definition nearest (sn sd lo : Z) : Z :=
  match 2 * sn ?= (2 * lo + 1) * sd with
  | Lt => lo
  | Gt => lo + 1
  | Eq => if Z.even lo then lo else lo + 1
  end.

(** The shortest decimal [D * 10^(p - n)] that rounds back to the float
    [x], the nearest one when two of that length do; [n] counts upwards
    and the seventeen digits that always suffice end the search. *)
Fixpoint shortest (fuel : nat) (x : spec_float) (v : Z * Z) (p n : Z) : Z * Z :=
  let (sn, sd) := scale10 v (n - p) in
  let lo := sn / sd in
  match fuel with
  | O => (nearest sn sd lo, p - n)
  | S fuel' =>
      let ok D := sf_eqb (round_decimal false D (p - n)) x in
      match ok lo, ok (lo + 1) with
      | true, false => (lo, p - n)
      | false, true => (lo + 1, p - n)
      | true, true => (nearest sn sd lo, p - n)
      | false, false => shortest fuel' x v p (n + 1)
      end
  end.

Fixpoint rstrip_zeros (rev_digits : list ascii) : list ascii :=
  match rev_digits with
  | c :: r => if Ascii.eqb c "0" then rstrip_zeros r else rev_digits
  | [] => []
  end.

(** The digits and the position of the decimal point of the shortest text
    of the positive float [m * 2^e]. *)
Definition float_digits (m : positive) (e : Z) : string * Z :=
  let v := ratio m e in
  let p := decpt m e in
  let (D, scale) := shortest 16 (S754_finite false m e) v p 1 in
  let ds := str_nonneg D in
  let point := scale + Z.of_nat (String.length ds) in
  (string_of_list_ascii (rev (rstrip_zeros (rev (list_ascii_of_string ds)))), point).

(** The layout [repr] gives to digits [ds] with the point after [point]
    of them: exponent notation when [point <= -4] or [point > 16]. *)
Definition float_layout (ds : string) (point : Z) : string :=
  let len := Z.of_nat (String.length ds) in
  if (point <=? -4) || (16 <? point) then
    let ex := point - 1 in
    substring 0 1 ds
    +:+ (if 1 <? len then String "." (substring 1 (String.length ds - 1)%nat ds) else EmptyString)
    +:+ String "e" (String (if ex <? 0 then "-"%char else "+"%char) (zfill 2 (str_nonneg (Z.abs ex))))
  else if point <=? 0 then "0." +:+ zeros (Z.to_nat (- point)) +:+ ds
  else if len <=? point then ds +:+ zeros (Z.to_nat (point - len)) +:+ ".0"
  else
    substring 0 (Z.to_nat point) ds
    +:+ String "." (substring (Z.to_nat point) (String.length ds - Z.to_nat point)%nat ds).

(** [str(x)] for a [float]. *)
Definition str_float (x : spec_float) : string :=
  match x with
  | S754_zero s => if s then "-0.0" else "0.0"
  | S754_infinity s => if s then "-inf" else "inf"
  | S754_nan => "nan"
  | S754_finite s m e =>
      let (ds, point) := float_digits m e in
      (if s then "-" else EmptyString) +:+ float_layout ds point
  end.

End Py.

(** ** Python values, exceptions and dictionaries *)

(** A Python object as the codec sees it. An instance of a subclass of
    [str], [int], [float], [dict] or [list] counts as an instance of that
    class. [VObject cls] is an instance of any other class, named by its
    class, and is taken to be neither a container nor subscriptable. *)
#[warnings="-register-all"]
Inductive val : Type :=
  | VStr (s : string)
  | VInt (n : Z)
  | VFloat (x : spec_float)
  | VBool (b : bool)
  | VNone
  | VDict (items : list (string * val))
  | VList (elems : list val)
  | VObject (cls : string).

Abbreviation dict := (list (string * val)).

(** Exceptions by class and message. The messages of the exceptions that
    the repository raises are exact; those of the interpreter are
    abbreviated. *)
Inductive exn : Type :=
  | TypeError (msg : string)
  | ValueError (msg : string)
  | AttributeError (msg : string)
  | KeyError (msg : string).

Inductive result (A : Type) : Type :=
  | Ok (a : A)
  | Raise (e : exn).

Arguments Ok {A} a.
Arguments Raise {A} e.

Definition bind {A B : Type} (r : result A) (k : A -> result B) : result B :=
  match r with
  | Ok a => k a
  | Raise e => Raise e
  end.

Notation "'let*' x ':=' e 'in' k" := (bind e (fun x => k))
  (at level 10, x name, e at level 100, k at level 200).

(** A comprehension whose element expression may raise. *)
Definition mapM {A B : Type} (f : A -> result B) : list A -> result (list B) :=
  fix go (l : list A) : result (list B) :=
    match l with
    | [] => Ok []
    | a :: l' => let* b := f a in let* bs := go l' in Ok (b :: bs)
    end.

Definition isinstance_str (v : val) : bool :=
  match v with VStr _ => true | _ => false end.

(** [bool] is a subclass of [int]: [isinstance(True, int)] holds. *)
Definition isinstance_int (v : val) : bool :=
  match v with VInt _ | VBool _ => true | _ => false end.

Definition isinstance_float (v : val) : bool :=
  match v with VFloat _ => true | _ => false end.

Definition isinstance_bool (v : val) : bool :=
  match v with VBool _ => true | _ => false end.

Definition isinstance_dict (v : val) : bool :=
  match v with VDict _ => true | _ => false end.

Definition isinstance_list (v : val) : bool :=
  match v with VList _ => true | _ => false end.

Definition is_None (v : val) : bool :=
  match v with VNone => true | _ => false end.

Definition class_name (v : val) : string :=
  match v with
  | VStr _ => "str"
  | VInt _ => "int"
  | VFloat _ => "float"
  | VBool _ => "bool"
  | VNone => "NoneType"
  | VDict _ => "dict"
  | VList _ => "list"
  | VObject cls => cls
  end.

(** The text of [type(v)] in an f-string. *)
Definition type_repr (v : val) : string :=
  "<class '" +:+ class_name v +:+ "'>".

(** [str(v)] for the numbers; the codec calls it on no other value. *)
Definition str_number (v : val) : string :=
  match v with
  | VInt n => Py.str_int n
  | VBool b => Py.str_bool b
  | VFloat x => Py.str_float x
  | _ => EmptyString
  end.

(** [key in d] *)
Fixpoint dict_has (d : dict) (key : string) : bool :=
  match d with
  | [] => false
  | (k, _) :: d' => String.eqb k key || dict_has d' key
  end.

(** [d[key] = v]: a present key keeps its position, a new one goes last. *)
Fixpoint dict_set (d : dict) (key : string) (v : val) : dict :=
  match d with
  | [] => [(key, v)]
  | (k, w) :: d' =>
      if String.eqb k key then (k, v) :: d' else (k, w) :: dict_set d' key v
  end.

(** [d[key]] handed to [found]; [missing] when the key is absent. The
    continuation keeps the looked-up value a structural part of [d]. *)
Definition dict_find {A : Type} (key : string) (found : val -> A) (missing : A)
  : dict -> A :=
  fix go (d : dict) : A :=
    match d with
    | [] => missing
    | (k, v) :: d' => if String.eqb k key then found v else go d'
    end.

Definition is_substring (s1 s2 : string) : bool :=
  match String.index 0 s1 s2 with Some _ => true | None => false end.

(** [tag in v], by the class of [v]: a key of a dict, a substring of a
    string, an element of a list; other objects are not containers. *)
Definition contains (v : val) (tag : string) : result bool :=
  match v with
  | VDict d => Ok (dict_has d tag)
  | VStr s => Ok (is_substring tag s)
  | VList l => Ok (existsb (fun e => match e with VStr s => String.eqb s tag | _ => false end) l)
  | _ => Raise (TypeError ("argument of type '" +:+ class_name v +:+ "' is not iterable"))
  end.

(** [v[tag]] handed to [k]. *)
Definition subscript {A : Type} (v : val) (tag : string) (k : val -> result A)
  : result A :=
  match v with
  | VDict d => dict_find tag k (Raise (KeyError tag)) d
  | VStr _ => Raise (TypeError "string indices must be integers")
  | VList _ => Raise (TypeError "list indices must be integers or slices, not str")
  | _ => Raise (TypeError ("'" +:+ class_name v +:+ "' object is not subscriptable"))
  end.

(** [t.isdigit()] on an object [t]. *)
Definition str_isdigit (t : val) : result bool :=
  match t with
  | VStr s => Ok (Py.isdigit s)
  | _ => Raise (AttributeError ("'" +:+ class_name t +:+ "' object has no attribute 'isdigit'"))
  end.

(** [int(t)] where [t.isdigit()] holds. *)
Definition int_of (t : val) : result val :=
  match t with
  | VStr s => Ok (VInt (Py.int_of_str s))
  | _ => Raise (TypeError "int() argument must be a string or a number")
  end.

(** [float(t)] on a string. *)
Definition float_of (t : val) : result val :=
  match t with
  | VStr s =>
      match Py.float_of_str s with
      | Some x => Ok (VFloat x)
      | None => Raise (ValueError ("could not convert string to float: '" +:+ s +:+ "'"))
      end
  | _ => Raise (TypeError "float() argument must be a string or a number")
  end.

(** ** utils.py *)

Definition unsupported_type_error (value : val) (key : string) : exn :=
  TypeError ("Unsupported data type: " +:+ type_repr value +:+ " for key " +:+ key).

Definition unsupported_tag_error (key : string) : exn :=
  TypeError ("Unsupported data type for key " +:+ key).

Definition no_items_error (data : val) : exn :=
  AttributeError ("'" +:+ class_name data +:+ "' object has no attribute 'items'").

(** The body of the loop of [serialize]: the tagged value stored under
    [key], the tests in the order of the source. *)
Definition serialize_field (serialize : val -> result val)
    (key : string) (value : val) : result val :=
  if isinstance_str value then Ok (VDict [("S", value)])
  else if isinstance_int value then Ok (VDict [("N", VStr (str_number value))])
  else if isinstance_float value then Ok (VDict [("N", VStr (str_number value))])
  else if isinstance_bool value then Ok (VDict [("BOOL", value)])
  else if isinstance_dict value then
    let* m := serialize value in Ok (VDict [("M", m)])
  else if isinstance_list value then
    match value with
    | VList elems =>
        let* l := mapM (fun v => if isinstance_dict v then serialize v else Ok v) elems in
        Ok (VDict [("L", VList l)])
    | _ => Raise (unsupported_type_error value key)
    end
  else if is_None value then Ok (VDict [("NULL", VBool true)])
  else Raise (unsupported_type_error value key).

(** [serialize(data)] *)
Fixpoint serialize (data : val) : result val :=
  match data with
  | VDict items =>
      let* serialized_data :=
        (fix loop (items : dict) (serialized_data : dict) : result dict :=
           match items with
           | [] => Ok serialized_data
           | (key, value) :: rest =>
               let* tagged := serialize_field serialize key value in
               loop rest (dict_set serialized_data key tagged)
           end) items [] in
      Ok (VDict serialized_data)
  | _ => Raise (no_items_error data)
  end.

(** The loop that [serialize] and [deserialize] share, as a function of
    its own: every item, converted by [field], is assigned into the
    dictionary built so far. *)
Fixpoint dict_loop (field : string -> val -> result val) (items acc : dict)
  : result dict :=
  match items with
  | [] => Ok acc
  | (key, value) :: rest =>
      let* converted := field key value in
      dict_loop field rest (dict_set acc key converted)
  end.

Definition serialize_items : dict -> dict -> result dict :=
  dict_loop (serialize_field serialize).

(** The elements of [value["L"]], as the comprehension of [deserialize]
    walks them: a list gives its elements, a string its characters and a
    dict its keys, none of which is a dict in the last two cases. *)
Definition deserialize_elements (deserialize : val -> result val) (x : val)
  : result val :=
  match x with
  | VList elems =>
      let* l := mapM (fun v => if isinstance_dict v then deserialize v else Ok v) elems in
      Ok (VList l)
  | VStr s =>
      Ok (VList (map (fun c => VStr (String c EmptyString)) (list_ascii_of_string s)))
  | VDict d => Ok (VList (map (fun kv => VStr (fst kv)) d))
  | _ => Raise (TypeError ("'" +:+ class_name x +:+ "' object is not iterable"))
  end.

(** The body of the loop of [deserialize], the tags in the order of the
    source. *)
Definition deserialize_field (deserialize : val -> result val)
    (key : string) (value : val) : result val :=
  let* s := contains value "S" in
  if s then subscript value "S" Ok
  else
    let* n := contains value "N" in
    if n then
      subscript value "N" (fun t =>
        let* digits := str_isdigit t in
        if digits then int_of t else float_of t)
    else
      let* b := contains value "BOOL" in
      if b then subscript value "BOOL" Ok
      else
        let* m := contains value "M" in
        if m then subscript value "M" deserialize
        else
          let* l := contains value "L" in
          if l then subscript value "L" (deserialize_elements deserialize)
          else
            let* z := contains value "NULL" in
            if z then Ok VNone
            else Raise (unsupported_tag_error key).

(** [deserialize(data)] *)
Fixpoint deserialize (data : val) : result val :=
  match data with
  | VDict items =>
      let* deserialized_data :=
        (fix loop (items : dict) (deserialized_data : dict) : result dict :=
           match items with
           | [] => Ok deserialized_data
           | (key, value) :: rest =>
               let* plain := deserialize_field deserialize key value in
               loop rest (dict_set deserialized_data key plain)
           end) items [] in
      Ok (VDict deserialized_data)
  | _ => Raise (no_items_error data)
  end.

Definition deserialize_items : dict -> dict -> result dict :=
  dict_loop (deserialize_field deserialize).

(** *** Predicates on values used by the statements *)

(** The float [-5.0], that is [- 5629499534213120 * 2^-50]. *)
Definition minus_five : spec_float := S754_finite true 5629499534213120 (-50).

(** No object of an unsupported class anywhere in [v]: the plain values
    of the specification. *)
Fixpoint plain (v : val) : bool :=
  match v with
  | VObject _ => false
  | VDict items => forallb (fun kv => plain (snd kv)) items
  | VList elems => forallb plain elems
  | _ => true
  end.

(** [offends v key cls]: encoding [v] meets, under the field [key] of [v]
    or of a dictionary nested in it, an object of the unsupported class
    [cls]. *)
Inductive offends : val -> string -> string -> Prop :=
  | offends_field items key cls :
      In (key, VObject cls) items -> offends (VDict items) key cls
  | offends_nested items k v key cls :
      In (k, v) items -> offends v key cls -> offends (VDict items) key cls
  | offends_element elems d key cls :
      In (VDict d) elems -> offends (VDict d) key cls -> offends (VList elems) key cls.

(** Pairwise distinct keys, the invariant of a Python dictionary. *)
Fixpoint distinct (keys : list string) : bool :=
  match keys with
  | [] => true
  | k :: rest => negb (existsb (String.eqb k) rest) && distinct rest
  end.

(** A float whose text is read back as the same float. *)
Definition float_stable (x : spec_float) : bool :=
  negb (Py.isdigit (Py.str_float x))
  && match Py.float_of_str (Py.str_float x) with
     | Some y => Py.sf_eqb y x
     | None => false
     end.

(** Field values on which the codec is the identity by construction:
    strings, non-negative integers, floats whose text reads back, [None],
    dictionaries of such values, and lists whose dictionaries are such. *)
Fixpoint stable (v : val) : bool :=
  match v with
  | VStr _ => true
  | VInt n => 0 <=? n
  | VFloat x => float_stable x
  | VBool _ => false
  | VNone => true
  | VDict items =>
      distinct (map fst items) && forallb (fun kv => stable (snd kv)) items
  | VList elems =>
      forallb (fun e => if isinstance_dict e then stable e else true) elems
  | VObject _ => false
  end.

(** ** base.py *)

(** Modelled from the spec: [ChatMessage] (llama_index.core) is not under
    src. The spec treats a message as an opaque object of plain values, so
    a message is the dictionary of its fields, [message.dict()] returns it
    and [ChatMessage.parse_obj] accepts a dictionary as it is. *)
Abbreviation ChatMessage := dict (only parsing).

Definition message_dict (message : ChatMessage) : val := VDict message.

Definition parse_obj (obj : val) : result ChatMessage :=
  match obj with
  | VDict fields => Ok fields
  | _ => Raise (ValueError "value is not a valid dict")
  end.

(** *** The table

    The backing table is outside the repository. It maps the pair of a
    partition key and a row key to the [msg] attribute of the item stored
    there; a query returns the items of one partition by ascending row
    key, and a read sees every earlier write. The requests the adapter
    sends are recorded in order. *)

Inductive request : Type :=
  | Query (pk : string)
  | PutItem (pk rk : string) (msg : val)
  | DeleteItem (pk rk : string)
  | Scan.

Record store : Type := Store {
  table : gmap (string * string) val;
  requests : list request
}.

(** A call on the store: its outcome and the store it leaves. *)
Definition io (A : Type) : Type := store -> result A * store.

Definition io_ret {A : Type} (a : A) : io A := fun st => (Ok a, st).

Definition io_raise {A : Type} (e : exn) : io A := fun st => (Raise e, st).

Definition io_bind {A B : Type} (m : io A) (k : A -> io B) : io B :=
  fun st =>
    match m st with
    | (Ok a, st') => k a st'
    | (Raise e, st') => (Raise e, st')
    end.

Notation "'let!' x ':=' e 'in' k" := (io_bind e (fun x => k))
  (at level 10, x name, e at level 100, k at level 200).

(** A pure computation inside a call. *)
Definition lift {A : Type} (r : result A) : io A := fun st => (r, st).

(** A [for] loop whose body calls the store. *)
Fixpoint io_for {A : Type} (l : list A) (body : A -> io unit) : io unit :=
  match l with
  | [] => io_ret tt
  | a :: l' => let! _ := body a in io_for l' body
  end.

Definition sent (st : store) (r : request) : store :=
  Store (table st) (requests st ++ [r]).

Definition rowkey_le (a b : string * val) : Prop :=
  String.leb (fst a) (fst b) = true.

Global Instance rowkey_le_dec : RelDecision rowkey_le :=
  fun a b => decide (String.leb (fst a) (fst b) = true).

(** The items of partition [pk], each as its row key and its [msg]. *)
Definition partition (pk : string) (t : gmap (string * string) val)
  : list (string * val) :=
  omap (fun e : (string * string) * val =>
          if decide (fst (fst e) = pk) then Some (snd (fst e), snd e) else None)
       (map_to_list t).

Definition query (pk : string) : io (list (string * val)) :=
  fun st => (Ok (merge_sort rowkey_le (partition pk (table st))), sent st (Query pk)).

Definition put_item (pk rk : string) (msg : val) : io unit :=
  fun st =>
    (Ok tt, Store (<[(pk, rk) := msg]> (table st)) (requests st ++ [PutItem pk rk msg])).

Definition delete_item (pk rk : string) : io unit :=
  fun st =>
    (Ok tt, Store (delete (pk, rk) (table st)) (requests st ++ [DeleteItem pk rk])).

Definition scan : io (list ((string * string) * val)) :=
  fun st => (Ok (map_to_list (table st)), sent st Scan).

(** *** AWSDynamoChatStore *)

(** [_to_row_key(idx)] *)
Definition _to_row_key (idx : Z) : string := Py.format_010 idx.

(** [enumerate(l)], and its tail that counts from [start]. *)
Fixpoint enumerate_from {A : Type} (start : Z) (l : list A) : list (Z * A) :=
  match l with
  | [] => []
  | a :: l' => (start, a) :: enumerate_from (start + 1) l'
  end.

Definition enumerate {A : Type} (l : list A) : list (Z * A) := enumerate_from 0 l.

(** The items written for the payloads [msgs], the first of them under
    the index [start]: each row key with its [msg]. *)
Fixpoint rows (start : Z) (msgs : list val) : list (string * val) :=
  match msgs with
  | [] => []
  | m :: rest => (_to_row_key start, m) :: rows (start + 1) rest
  end.

(** The table after one delete request and after one put request of a
    batch. *)
Definition delete_row (key : string) (t : gmap (string * string) val)
    (item : string * val) : gmap (string * string) val :=
  delete (key, fst item) t.

Definition insert_row (key : string) (t : gmap (string * string) val)
    (r : string * val) : gmap (string * string) val :=
  <[(key, fst r) := snd r]> t.

(** [set_messages(key, messages)]. The requests of the batch are applied
    in the order in which they are written. *)
Definition set_messages (key : string) (messages : list ChatMessage) : io unit :=
  let! response := query key in
  let! _ := io_for response (fun item => delete_item key (fst item)) in
  io_for (enumerate messages) (fun im =>
    let! msg := lift (serialize (message_dict (snd im))) in
    put_item key (_to_row_key (fst im)) msg).

(** [get_messages(key)] *)
Definition get_messages (key : string) : io (list ChatMessage) :=
  let! response := query key in
  lift (mapM (fun item => let* d := deserialize (snd item) in parse_obj d) response).

Definition index_error (idx : Z) : exn :=
  ValueError ("Index out of bounds: " +:+ Py.str_int idx).

(** [add_message(key, message, idx)]; [None] is the omitted index. *)
Definition add_message (key : string) (message : ChatMessage) (idx : option Z)
  : io unit :=
  let! messages := get_messages key in
  let next_index := Z.of_nat (List.length messages) in
  let! idx :=
    match idx with
    | Some i => if i >? next_index then io_raise (index_error i) else io_ret i
    | None => io_ret next_index
    end in
  let! msg := lift (serialize (message_dict message)) in
  put_item key (_to_row_key idx) msg.

(** [delete_messages(key)] *)
Definition delete_messages (key : string) : io unit :=
  let! response := query key in
  io_for response (fun item => delete_item key (fst item)).

(** [delete_message(key, idx)] *)
Definition delete_message (key : string) (idx : Z) : io unit :=
  delete_item key (_to_row_key idx).

(** [delete_last_message(key)] *)
Definition delete_last_message (key : string) : io unit :=
  let! messages := get_messages key in
  let last_row_key := _to_row_key (Z.of_nat (List.length messages) - 1) in
  delete_item key last_row_key.

(** [get_keys()] *)
Definition get_keys : io (gset string) :=
  let! response := scan in
  io_ret (list_to_set (map (fun e : (string * string) * val => fst (fst e)) response)).

(** *** Sample messages and stores *)

Definition msgA : dict := [("role", VStr "user"); ("content", VStr "hello")].

Definition msgB : dict :=
  [("role", VStr "assistant"); ("content", VStr "hi");
   ("additional_kwargs", VDict [("tokens", VInt 7); ("tags", VList [VStr "a"; VInt (-1)])])].

Definition msgC : dict := [("role", VStr "user"); ("content", VNone)].

Definition msgD : dict := [("role", VStr "user"); ("content", VStr "bye")].

(** A message with a boolean among its auxiliary fields. *)
Definition msg_flag : dict :=
  [("role", VStr "assistant"); ("content", VStr "done");
   ("additional_kwargs", VDict [("stream", VBool true)])].

(** The message numbered [i], and the [n] messages numbered from 0. *)
Definition numbered (i : nat) : dict :=
  [("role", VStr "user"); ("content", VStr "ping");
   ("additional_kwargs", VDict [("seq", VInt (Z.of_nat i))])].

Definition numbered_messages (n : nat) : list dict := map numbered (seq 0 n).

Definition empty_store : store := Store ∅ [].

(** The store after [set_messages("conv1", [msgA, msgB, msgC])]. *)
Definition store3 : store := snd (set_messages "conv1" [msgA; msgB; msgC] empty_store).

(** Settles, by evaluation, that a concrete dictionary comes back from
    the codec. *)
Ltac codec_evaluates :=
  lazymatch goal with
  | |- exists s, serialize ?v = Ok s /\ deserialize s = Ok ?v =>
      let r := eval vm_compute in (serialize v) in
      lazymatch r with
      | Ok ?s => exists s; split; vm_compute; reflexivity
      end
  end.

(** *** Predicates and abbreviations of the further properties *)

(** A value as [serialize] stores it: a dictionary of one tag, which is
    one of [S], [N], [M], [L] and [NULL]. *)
Definition tagged (t : val) : Prop :=
  exists tag payload,
    t = VDict [(tag, payload)] /\ In tag ["S"; "N"; "M"; "L"; "NULL"].

(** A message that the codec serializes and reads back as itself. *)
Definition codec_ok (m : dict) : Prop :=
  exists s, serialize (VDict m) = Ok s /\ deserialize s = Ok (VDict m).

Ltac codec_ok_evaluates := unfold codec_ok; codec_evaluates.

(** [holds key t rs]: under [key] the table holds the rows [rs], each a
    row key with its [msg], and nothing else. *)
Definition holds (key : string) (t : gmap (string * string) val)
    (rs : list (string * val)) : Prop :=
  forall rk v, t !! (key, rk) = Some v <-> (rk, v) ∈ rs.

(** Rows by strictly ascending row key. *)
Definition rowkey_lt (a b : string * val) : Prop :=
  String.ltb (fst a) (fst b) = true.

(** The rows left when the row under [rk] goes. *)
Definition without (rk : string) (rs : list (string * val)) : list (string * val) :=
  filter (fun r => fst r <> rk) rs.

(** The item of a query decoded into a message, as [get_messages] does. *)
Definition decode (item : string * val) : result dict :=
  let* d := deserialize (snd item) in parse_obj d.

(** The body of the second loop of [set_messages]. *)
Definition put_message (key : string) (im : Z * dict) : io unit :=
  let! msg := lift (serialize (message_dict (snd im))) in
  put_item key (_to_row_key (fst im)) msg.

(** A message with a boolean field. *)
Definition msg_done : dict :=
  [("role", VStr "assistant"); ("content", VStr "ok"); ("done", VBool true)].

(** A message that [serialize] refuses. *)
Definition msg_object : dict := [("role", VStr "user"); ("content", VObject "object")].

(** * Properties *)

(** ** Decimal text and row keys *)

Section RowKeys.

Local Open Scope Z_scope.

Lemma append_nil_l s : EmptyString +:+ s = s.
Proof. reflexivity. Qed.

Lemma append_cons_l c s t : String c s +:+ t = String c (s +:+ t).
Proof. reflexivity. Qed.


Lemma zeros_shift k s :
  Py.zeros k +:+ String "0" s = String "0" (Py.zeros k +:+ s).
Proof.
  induction k as [|k IH]; simpl; [reflexivity|].
  rewrite !append_cons_l, IH. reflexivity.
Qed.

Lemma fixed_digits_length w : forall n acc,
  String.length (Py.fixed_digits w n acc) = (w + String.length acc)%nat.
Proof.
  induction w as [|w IH]; intros n acc; simpl; [reflexivity|].
  rewrite IH. simpl. lia.
Qed.

Lemma fixed_digits_zero j : forall acc,
  Py.fixed_digits j 0 acc = Py.zeros j +:+ acc.
Proof.
  induction j as [|j IH]; intros acc; simpl; [reflexivity|].
  change (0 / 10) with 0. change (0 mod 10) with 0.
  rewrite IH, append_cons_l. apply zeros_shift.
Qed.

(** A number below [10^k] written in a wider field gains leading zeros. *)
Lemma fixed_digits_pad k : forall j n acc,
  0 <= n < 10 ^ Z.of_nat k ->
  Py.fixed_digits (k + j) n acc = Py.zeros j +:+ Py.fixed_digits k n acc.
Proof.
  induction k as [|k IH]; intros j n acc Hn.
  - simpl in Hn. assert (n = 0) by lia. subst n. apply fixed_digits_zero.
  - simpl. apply IH.
    rewrite Nat2Z.inj_succ, Z.pow_succ_r in Hn by lia.
    split; [apply Z.div_pos; lia|].
    apply Z.div_lt_upper_bound; lia.
Qed.

(** With enough fuel, [str_digits] writes [n] in the field of its own
    number of digits, which no field that holds [n] undercuts. *)
Lemma str_digits_fixed fuel : forall n acc w,
  0 <= n < 10 ^ Z.of_nat fuel -> (0 < fuel)%nat ->
  n < 10 ^ Z.of_nat w -> (0 < w)%nat ->
  exists k, (0 < k <= w)%nat /\ n < 10 ^ Z.of_nat k /\
            Py.str_digits fuel n acc = Py.fixed_digits k n acc.
Proof.
  induction fuel as [|fuel IH]; intros n acc w Hn Hfuel Hw Hw0; [lia|].
  simpl. destruct (n <? 10) eqn:E.
  - apply Z.ltb_lt in E. exists 1%nat. repeat split; simpl; lia.
  - apply Z.ltb_ge in E.
    rewrite Nat2Z.inj_succ, Z.pow_succ_r in Hn by lia.
    destruct w as [|w]; [lia|].
    rewrite Nat2Z.inj_succ, Z.pow_succ_r in Hw by lia.
    assert (Hq : 0 <= n / 10 < 10 ^ Z.of_nat fuel).
    { split; [apply Z.div_pos; lia|apply Z.div_lt_upper_bound; lia]. }
    assert (Hq' : n / 10 < 10 ^ Z.of_nat w) by (apply Z.div_lt_upper_bound; lia).
    assert (Hf : (0 < fuel)%nat).
    { destruct fuel; [simpl in Hn; lia|lia]. }
    assert (Hw' : (0 < w)%nat).
    { destruct w; [simpl in Hw; lia|lia]. }
    destruct (IH (n / 10) (String (Py.digit_char (n mod 10)) acc) w Hq Hf Hq' Hw')
      as (k & Hk & Hlt & Heq).
    exists (S k). repeat split; try lia.
    + rewrite Nat2Z.inj_succ, Z.pow_succ_r by lia.
      pose proof (Z.div_mod n 10 ltac:(lia)).
      pose proof (Z.mod_pos_bound n 10 ltac:(lia)). lia.
    + exact Heq.
Qed.

Lemma str_nonneg_fuel n :
  0 <= n -> n < 10 ^ Z.of_nat (S (Z.to_nat (Z.log2 n))).
Proof.
  intros Hn. destruct (Z.eq_dec n 0) as [->|Hne]; [reflexivity|].
  pose proof (Z.log2_nonneg n).
  rewrite Nat2Z.inj_succ, Z2Nat.id by lia.
  pose proof (proj2 (Z.log2_spec n ltac:(lia))) as Hlog.
  eapply Z.lt_le_trans; [exact Hlog|].
  apply Z.pow_le_mono_l. lia.
Qed.

(** Zero padding of [str(n)] to [w] characters is the field of [w]
    digits. *)
Lemma zfill_str_nonneg w n :
  (0 < w)%nat -> 0 <= n < 10 ^ Z.of_nat w ->
  Py.zfill w (Py.str_nonneg n) = Py.fixed_digits w n EmptyString.
Proof.
  intros Hw [Hn0 Hn].
  destruct (str_digits_fixed (S (Z.to_nat (Z.log2 n))) n EmptyString w)
    as (k & Hk & Hlt & Heq); try lia.
  { split; [lia|apply str_nonneg_fuel; lia]. }
  unfold Py.zfill, Py.str_nonneg. rewrite Heq, fixed_digits_length. simpl.
  replace (w - (k + 0))%nat with (w - k)%nat by lia.
  rewrite <- fixed_digits_pad by lia.
  f_equal. lia.
Qed.

Lemma digit_char_compare a b :
  0 <= a < b -> b < 10 ->
  Ascii.compare (Py.digit_char a) (Py.digit_char b) = Lt.
Proof.
  intros Ha Hb. unfold Ascii.compare, Py.digit_char, ascii_of_nat.
  rewrite !N_ascii_embedding by lia.
  apply N.compare_lt_iff. lia.
Qed.

Lemma compare_cons c1 s1 c2 s2 :
  String.compare (String c1 s1) (String c2 s2) =
  match Ascii.compare c1 c2 with
  | Eq => String.compare s1 s2
  | ne => ne
  end.
Proof. reflexivity. Qed.

(** Fields of equal width compare as the numbers they hold. *)
Lemma fixed_digits_compare w : forall a b acc1 acc2,
  0 <= a < 10 ^ Z.of_nat w -> 0 <= b < 10 ^ Z.of_nat w ->
  a < b \/ (a = b /\ String.compare acc1 acc2 = Lt) ->
  String.compare (Py.fixed_digits w a acc1) (Py.fixed_digits w b acc2) = Lt.
Proof.
  induction w as [|w IH]; intros a b acc1 acc2 Ha Hb Hlt.
  - simpl in *. destruct Hlt as [?|[_ ?]]; [lia|assumption].
  - simpl. rewrite Nat2Z.inj_succ, Z.pow_succ_r in Ha, Hb by lia.
    pose proof (Z.div_mod a 10 ltac:(lia)).
    pose proof (Z.div_mod b 10 ltac:(lia)).
    pose proof (Z.mod_pos_bound a 10 ltac:(lia)).
    pose proof (Z.mod_pos_bound b 10 ltac:(lia)).
    apply IH.
    + split; [apply Z.div_pos; lia|apply Z.div_lt_upper_bound; lia].
    + split; [apply Z.div_pos; lia|apply Z.div_lt_upper_bound; lia].
    + destruct Hlt as [Hab|[-> Hacc]].
      * destruct (Z.eq_dec (a / 10) (b / 10)) as [Hq|Hq].
        -- right. split; [exact Hq|].
           rewrite compare_cons, digit_char_compare by lia. reflexivity.
        -- left. assert (a / 10 <= b / 10) by (apply Z.div_le_mono; lia). lia.
      * right. split; [reflexivity|]. rewrite compare_cons.
        assert (Hc : Ascii.compare (Py.digit_char (b mod 10)) (Py.digit_char (b mod 10)) = Eq).
        { unfold Ascii.compare. apply N.compare_refl. }
        rewrite Hc. exact Hacc.
Qed.

Lemma nat_of_digit_char d :
  0 <= d < 10 -> nat_of_ascii (Py.digit_char d) = (48 + Z.to_nat d)%nat.
Proof. intros H. unfold Py.digit_char. apply nat_ascii_embedding. lia. Qed.

Lemma is_digit_digit_char d : 0 <= d < 10 -> Py.is_digit (Py.digit_char d) = true.
Proof.
  intros H. unfold Py.is_digit. rewrite nat_of_digit_char by exact H.
  apply andb_true_iff. split; apply Z.leb_le; lia.
Qed.

Lemma digit_val_digit_char d : 0 <= d < 10 -> Py.digit_val (Py.digit_char d) = d.
Proof. intros H. unfold Py.digit_val. rewrite nat_of_digit_char by exact H. lia. Qed.

Lemma all_digits_fixed w : forall n acc,
  Py.all_digits (Py.fixed_digits w n acc) = Py.all_digits acc.
Proof.
  induction w as [|w IH]; intros n acc; [reflexivity|].
  change (Py.fixed_digits (S w) n acc)
    with (Py.fixed_digits w (n / 10) (String (Py.digit_char (n mod 10)) acc)).
  rewrite IH.
  change (Py.all_digits (String (Py.digit_char (n mod 10)) acc))
    with (Py.is_digit (Py.digit_char (n mod 10)) && Py.all_digits acc).
  rewrite is_digit_digit_char by (apply Z.mod_pos_bound; lia). reflexivity.
Qed.

Lemma int_digits_fixed w : forall n a acc,
  0 <= n < 10 ^ Z.of_nat w ->
  Py.int_digits a (Py.fixed_digits w n acc) = Py.int_digits (a * 10 ^ Z.of_nat w + n) acc.
Proof.
  induction w as [|w IH]; intros n a acc Hn.
  - simpl in *. f_equal. lia.
  - rewrite Nat2Z.inj_succ, Z.pow_succ_r in Hn |- * by lia.
    change (Py.fixed_digits (S w) n acc)
      with (Py.fixed_digits w (n / 10) (String (Py.digit_char (n mod 10)) acc)).
    rewrite IH.
    + change (Py.int_digits ?a (String ?c ?t))
        with (Py.int_digits (10 * a + Py.digit_val c) t).
      rewrite digit_val_digit_char by (apply Z.mod_pos_bound; lia).
      f_equal. pose proof (Z.div_mod n 10 ltac:(lia)). lia.
    + split; [apply Z.div_pos; lia|apply Z.div_lt_upper_bound; lia].
Qed.

Lemma str_nonneg_fixed n :
  0 <= n ->
  exists k, (0 < k)%nat /\ n < 10 ^ Z.of_nat k
            /\ Py.str_nonneg n = Py.fixed_digits k n EmptyString.
Proof.
  intros Hn. pose proof (str_nonneg_fuel n Hn) as Hfuel.
  destruct (str_digits_fixed (S (Z.to_nat (Z.log2 n))) n EmptyString
              (S (Z.to_nat (Z.log2 n)))) as (k & Hk & Hlt & Heq); try lia.
  exists k. repeat split; try lia. exact Heq.
Qed.

(** The text of a non-negative integer is made of digits and is read
    back by [int] as that integer. *)
Lemma isdigit_str_int n : 0 <= n -> Py.isdigit (Py.str_int n) = true.
Proof.
  intros Hn. unfold Py.str_int.
  destruct (n <? 0) eqn:E; [apply Z.ltb_lt in E; lia|].
  destruct (str_nonneg_fixed n Hn) as (k & Hk & _ & Heq).
  rewrite Heq. unfold Py.isdigit.
  pose proof (fixed_digits_length k n EmptyString) as Hlen.
  pose proof (all_digits_fixed k n EmptyString) as Hall.
  destruct (Py.fixed_digits k n EmptyString); [simpl in Hlen; lia|exact Hall].
Qed.

Lemma int_of_str_str_int n : 0 <= n -> Py.int_of_str (Py.str_int n) = n.
Proof.
  intros Hn. unfold Py.str_int.
  destruct (n <? 0) eqn:E; [apply Z.ltb_lt in E; lia|].
  destruct (str_nonneg_fixed n Hn) as (k & Hk & Hlt & Heq).
  rewrite Heq. unfold Py.int_of_str. rewrite int_digits_fixed by lia. reflexivity.
Qed.

Lemma to_row_key_fixed idx :
  0 <= idx < 10 ^ 10 ->
  _to_row_key idx = Py.fixed_digits 10 idx EmptyString.
Proof.
  intros H. unfold _to_row_key, Py.format_010.
  destruct (idx <? 0) eqn:E; [apply Z.ltb_lt in E; lia|].
  apply zfill_str_nonneg; [lia|]. exact H.
Qed.

Lemma row_key_length idx :
  0 <= idx < 10 ^ 10 -> String.length (_to_row_key idx) = 10%nat.
Proof.
  intros H. rewrite to_row_key_fixed by exact H. apply fixed_digits_length.
Qed.

Lemma row_key_ltb (i j : Z) :
  0 <= i -> i < j -> j < 10 ^ 10 ->
  String.ltb (_to_row_key i) (_to_row_key j) = true.
Proof.
  intros Hi Hij Hj.
  rewrite !to_row_key_fixed by lia.
  unfold String.ltb.
  rewrite (fixed_digits_compare 10 i j EmptyString EmptyString); auto.
  - simpl Z.of_nat. lia.
  - simpl Z.of_nat. lia.
Qed.

(** C6. For indices [0 <= i < j < 10^10] the row key of [i] is strictly
    below the row key of [j] in the lexicographic order of strings; both
    keys have ten characters. *)
Theorem row_key_order (i j : Z) :
  0 <= i -> i < j -> j < 10 ^ 10 ->
  String.ltb (_to_row_key i) (_to_row_key j) = true
  /\ String.length (_to_row_key i) = 10%nat
  /\ String.length (_to_row_key j) = 10%nat.
Proof.
  intros Hi Hij Hj. split; [|split].
  - apply row_key_ltb; assumption.
  - apply row_key_length. lia.
  - apply row_key_length. lia.
Qed.

Lemma row_key_order_witness :
  String.ltb (_to_row_key 41) (_to_row_key 9999999999) = true
  /\ String.length (_to_row_key 41) = 10%nat
  /\ String.length (_to_row_key 9999999999) = 10%nat.
Proof. apply (row_key_order 41 9999999999); lia. Defined.

End RowKeys.

(** ** The result monad and dictionaries *)

Lemma bind_ok {A B : Type} (r : result A) (k : A -> result B) (b : B) :
  bind r k = Ok b -> exists a, r = Ok a /\ k a = Ok b.
Proof. destruct r as [a|e]; simpl; [eauto|discriminate]. Qed.

Lemma bind_raise {A B : Type} (r : result A) (k : A -> result B) (e : exn) :
  bind r k = Raise e -> r = Raise e \/ exists a, r = Ok a /\ k a = Raise e.
Proof. destruct r as [a|e']; simpl; [eauto|intros [= ->]; auto]. Qed.

Section Results.

Context {A B : Type}.

Lemma mapM_Forall2 (f : A -> result B) (l : list A) (l' : list B) :
  mapM f l = Ok l' <-> Forall2 (fun a b => f a = Ok b) l l'.
Proof.
  revert l'. induction l as [|a l IH]; intros l'; simpl.
  - split; [intros [= <-]; constructor|intros H; inversion H; reflexivity].
  - split.
    + intros H. apply bind_ok in H as (b & Hb & H).
      apply bind_ok in H as (bs & Hbs & [= <-]).
      constructor; [exact Hb|apply IH, Hbs].
    + intros H. inversion H as [|? b ? bs Hb Hbs]; subst.
      rewrite Hb. simpl. apply IH in Hbs. rewrite Hbs. reflexivity.
Qed.

Lemma mapM_raise (f : A -> result B) (l : list A) (e : exn) :
  mapM f l = Raise e -> exists a, In a l /\ f a = Raise e.
Proof.
  induction l as [|a l IH]; simpl; [discriminate|].
  intros H. apply bind_raise in H as [H|(b & Hb & H)].
  - exists a. auto.
  - apply bind_raise in H as [H|(bs & _ & H)]; [|discriminate].
    destruct (IH H) as (a' & Hin & Ha'). exists a'. auto.
Qed.

Lemma mapM_total (f : A -> result B) (l : list A) :
  Forall (fun a => exists b, f a = Ok b) l -> exists l', mapM f l = Ok l'.
Proof.
  induction 1 as [|a l (b & Hb) _ (l' & Hl')]; simpl; [eauto|].
  rewrite Hb, Hl'. simpl. eauto.
Qed.

End Results.

(** Induction on values that reaches the values inside dictionaries and
    lists. *)
Lemma val_induction (P : val -> Prop) :
  (forall s, P (VStr s)) ->
  (forall n, P (VInt n)) ->
  (forall x, P (VFloat x)) ->
  (forall b, P (VBool b)) ->
  P VNone ->
  (forall items, Forall (fun kv => P (snd kv)) items -> P (VDict items)) ->
  (forall elems, Forall P elems -> P (VList elems)) ->
  (forall cls, P (VObject cls)) ->
  forall v, P v.
Proof.
  intros Hs Hi Hf Hb Hn Hd Hl Ho.
  fix IH 1.
  intros [s|n|x|b| |items|elems|cls];
    [apply Hs|apply Hi|apply Hf|apply Hb|apply Hn| | |apply Ho].
  - apply Hd. induction items as [|[k v] items IHitems]; constructor.
    + apply IH.
    + exact IHitems.
  - apply Hl. induction elems as [|v elems IHelems]; constructor.
    + apply IH.
    + exact IHelems.
Qed.

Section Dictionaries.

Lemma distinct_cons k keys :
  distinct (k :: keys) = true <-> ~ In k keys /\ distinct keys = true.
Proof.
  simpl. rewrite andb_true_iff, negb_true_iff. split; intros [H1 H2]; split; auto.
  - intros Hin. assert (existsb (String.eqb k) keys = true); [|congruence].
    apply existsb_exists. exists k. split; [exact Hin|apply String.eqb_refl].
  - destruct (existsb (String.eqb k) keys) eqn:E; [|reflexivity].
    apply existsb_exists in E as (k' & Hin & Hk'). apply String.eqb_eq in Hk'.
    subst k'. contradiction.
Qed.

Lemma distinct_app_r keys1 keys2 :
  distinct (keys1 ++ keys2) = true -> distinct keys2 = true.
Proof.
  induction keys1 as [|k keys1 IH]; [auto|].
  rewrite <- app_comm_cons, distinct_cons. intros [_ H]. auto.
Qed.

Lemma dict_set_fresh (d : dict) key v :
  ~ In key (map fst d) -> dict_set d key v = d ++ [(key, v)].
Proof.
  induction d as [|[k w] d IH]; simpl; [reflexivity|].
  intros Hnot. destruct (String.eqb k key) eqn:E.
  - apply String.eqb_eq in E. tauto.
  - rewrite IH by tauto. reflexivity.
Qed.

(** On distinct keys the loop is a comprehension: the items keep their
    order and every value is converted on its own. *)
Lemma dict_loop_distinct field (items : dict) : forall acc : dict,
  distinct (map fst acc ++ map fst items) = true ->
  dict_loop field items acc =
  let* converted :=
    mapM (fun kv => let* c := field (fst kv) (snd kv) in Ok (fst kv, c)) items in
  Ok (acc ++ converted).
Proof.
  induction items as [|[k v] items IH]; intros acc Hd; simpl.
  - rewrite app_nil_r. reflexivity.
  - destruct (field k v) as [c|e]; simpl; [|reflexivity].
    assert (Hk : ~ In k (map fst acc)).
    { clear IH. induction acc as [|[k' w] acc IHacc]; simpl in *; [tauto|].
      apply andb_true_iff in Hd as [Hd1 Hd2]. apply negb_true_iff in Hd1.
      intros [->|Hin]; [|tauto].
      assert (existsb (String.eqb k) (map fst acc ++ k :: map fst items) = true);
        [|congruence].
      apply existsb_exists. exists k. split; [|apply String.eqb_refl].
      apply in_or_app. right. left. reflexivity. }
    rewrite dict_set_fresh by exact Hk.
    rewrite IH.
    + destruct (mapM _ items); simpl; [|reflexivity].
      rewrite <- app_assoc. reflexivity.
    + rewrite map_app. simpl. rewrite <- app_assoc. exact Hd.
Qed.

Lemma dict_loop_raise field (items : dict) : forall (acc : dict) e,
  dict_loop field items acc = Raise e ->
  exists key value, In (key, value) items /\ field key value = Raise e.
Proof.
  induction items as [|[k v] items IH]; intros acc e; simpl; [discriminate|].
  intros H. apply bind_raise in H as [H|(c & _ & H)].
  - exists k, v. auto.
  - destruct (IH _ _ H) as (k' & v' & Hin & Hf). exists k', v'. auto.
Qed.

Lemma dict_loop_app field (pre post : dict) : forall acc : dict,
  dict_loop field (pre ++ post) acc =
  let* mid := dict_loop field pre acc in dict_loop field post mid.
Proof.
  induction pre as [|[k v] pre IH]; intros acc; simpl; [reflexivity|].
  destruct (field k v); simpl; [apply IH|reflexivity].
Qed.

Lemma Forall2_In_l {A B : Type} (R : A -> B -> Prop) l l' a :
  Forall2 R l l' -> In a l -> exists b, In b l' /\ R a b.
Proof.
  induction 1 as [|x y l l' Hxy _ IH]; intros Hin; [destruct Hin|].
  destruct Hin as [->|Hin].
  - exists y. split; [left; reflexivity|exact Hxy].
  - destruct (IH Hin) as (b & Hb & Hab). exists b. split; [right|]; assumption.
Qed.

(** The fields of the dictionary a loop returns, on distinct keys. *)
Lemma dict_loop_fields field (data out : dict) key value :
  distinct (map fst data) = true ->
  dict_loop field data [] = Ok out ->
  In (key, value) data ->
  exists converted, In (key, converted) out /\ field key value = Ok converted.
Proof.
  intros Hd Hloop Hin.
  rewrite dict_loop_distinct in Hloop by exact Hd.
  apply bind_ok in Hloop as (conv & Hconv & [= <-]).
  apply mapM_Forall2 in Hconv.
  destruct (Forall2_In_l _ _ _ _ Hconv Hin) as ([k c] & Hout & Hkc).
  simpl in Hkc. apply bind_ok in Hkc as (c' & Hc' & [= <- <-]).
  exists c'. split; [exact Hout|exact Hc'].
Qed.

Lemma serialize_unfold (items : dict) :
  serialize (VDict items) =
  let* serialized_data := serialize_items items [] in Ok (VDict serialized_data).
Proof.
  simpl. f_equal. unfold serialize_items. generalize (@nil (string * val)).
  induction items as [|[k v] items IH]; intros acc; simpl; [reflexivity|].
  destruct (serialize_field serialize k v); simpl; [apply IH|reflexivity].
Qed.

Lemma deserialize_unfold (items : dict) :
  deserialize (VDict items) =
  let* deserialized_data := deserialize_items items [] in Ok (VDict deserialized_data).
Proof.
  simpl. f_equal. unfold deserialize_items. generalize (@nil (string * val)).
  induction items as [|[k v] items IH]; intros acc; simpl; [reflexivity|].
  destruct (deserialize_field deserialize k v); simpl; [apply IH|reflexivity].
Qed.

End Dictionaries.

(** ** The codec *)

Section Codec.

Lemma serialize_field_dict key (items : dict) :
  serialize_field serialize key (VDict items)
  = let* m := serialize (VDict items) in Ok (VDict [("M", m)]).
Proof. reflexivity. Qed.

Lemma serialize_field_list key (elems : list val) :
  serialize_field serialize key (VList elems)
  = let* l := mapM (fun v => if isinstance_dict v then serialize v else Ok v) elems in
    Ok (VDict [("L", VList l)]).
Proof. reflexivity. Qed.

(** Whatever [serialize_field] raises is the error of the source for an
    unsupported class, met at this field or inside it. *)
Lemma serialize_field_raise : forall v key e,
  serialize_field serialize key v = Raise e ->
  exists key' cls,
    e = unsupported_type_error (VObject cls) key'
    /\ ((v = VObject cls /\ key' = key) \/ offends v key' cls).
Proof.
  induction v as [s|n|x|b| |items IH|elems IH|cls] using val_induction;
    intros key e H; try discriminate H.
  - rewrite serialize_field_dict in H.
    apply bind_raise in H as [H|(m & _ & H)]; [|discriminate].
    rewrite serialize_unfold in H.
    apply bind_raise in H as [H|(m & _ & H)]; [|discriminate].
    apply dict_loop_raise in H as (k' & v' & Hin & Hf).
    rewrite List.Forall_forall in IH.
    destruct (IH (k', v') Hin k' e Hf) as (key' & cls & -> & Hcase).
    exists key', cls. split; [reflexivity|right].
    destruct Hcase as [[Hv ->]|Hoff].
    + simpl in Hv. subst v'. apply offends_field. exact Hin.
    + apply offends_nested with (k := k') (v := v'); assumption.
  - rewrite serialize_field_list in H.
    apply bind_raise in H as [H|(l & _ & H)]; [|discriminate].
    apply mapM_raise in H as (v & Hin & Hv).
    destruct v as [| | | | |d| |]; try discriminate Hv.
    change (serialize (VDict d) = Raise e) in Hv.
    rewrite List.Forall_forall in IH.
    assert (Hf : serialize_field serialize key (VDict d) = Raise e).
    { rewrite serialize_field_dict, Hv. reflexivity. }
    destruct (IH (VDict d) Hin key e Hf) as (key' & cls & -> & Hcase).
    exists key', cls. split; [reflexivity|right].
    destruct Hcase as [[Hv' _]|Hoff]; [discriminate Hv'|].
    apply offends_element with (d := d); assumption.
  - injection H as <-. exists key, cls. auto.
Qed.

Lemma serialize_items_unsupported (items : dict) key cls : forall acc : dict,
  In (key, VObject cls) items ->
  exists e, serialize_items items acc = Raise e.
Proof.
  unfold serialize_items.
  induction items as [|[k v] items IH]; intros acc Hin; [destruct Hin|].
  simpl. destruct Hin as [[= -> ->]|Hin].
  - eexists. reflexivity.
  - destruct (serialize_field serialize k v) as [c|e]; simpl; [|eauto].
    apply IH. exact Hin.
Qed.

(** C4. A dictionary with a field whose value is of an unsupported class
    is never serialized: [serialize] raises the [TypeError] of the source,
    whose message names the class and the key of an unsupported field met
    in the dictionary; it names this very field when the fields before it
    serialize. *)
Theorem serialize_unsupported (data : dict) (key cls : string) :
  In (key, VObject cls) data ->
  (exists key' cls',
      offends (VDict data) key' cls'
      /\ serialize (VDict data) = Raise (unsupported_type_error (VObject cls') key'))
  /\ (forall out, serialize (VDict data) <> Ok out)
  /\ (forall pre post out,
        data = pre ++ (key, VObject cls) :: post ->
        serialize (VDict pre) = Ok out ->
        serialize (VDict data) = Raise (unsupported_type_error (VObject cls) key)).
Proof.
  intros Hin.
  assert (Hfail : exists key' cls',
             offends (VDict data) key' cls'
             /\ serialize (VDict data) = Raise (unsupported_type_error (VObject cls') key')).
  { destruct (serialize_items_unsupported data key cls [] Hin) as (e & He).
    pose proof He as He'.
    apply dict_loop_raise in He' as (k' & v' & Hin' & Hf).
    apply serialize_field_raise in Hf as (key' & cls' & -> & Hcase).
    exists key', cls'. split.
    - destruct Hcase as [[-> ->]|Hoff].
      + apply offends_field. exact Hin'.
      + apply offends_nested with (k := k') (v := v'); assumption.
    - rewrite serialize_unfold, He. reflexivity. }
  split; [exact Hfail|]. split.
  - intros out Hout. destruct Hfail as (? & ? & _ & Hr). congruence.
  - intros pre post out -> Hpre.
    rewrite serialize_unfold in Hpre |- *.
    apply bind_ok in Hpre as (mid & Hmid & _).
    unfold serialize_items in *. rewrite dict_loop_app, Hmid. reflexivity.
Qed.

Lemma serialize_unsupported_witness :
  (exists key' cls',
      offends (VDict [("role", VStr "user"); ("content", VObject "object")]) key' cls'
      /\ serialize (VDict [("role", VStr "user"); ("content", VObject "object")])
         = Raise (unsupported_type_error (VObject cls') key'))
  /\ (forall out,
        serialize (VDict [("role", VStr "user"); ("content", VObject "object")]) <> Ok out)
  /\ (forall pre post out,
        [("role", VStr "user"); ("content", VObject "object")]
        = pre ++ ("content", VObject "object") :: post ->
        serialize (VDict pre) = Ok out ->
        serialize (VDict [("role", VStr "user"); ("content", VObject "object")])
        = Raise (unsupported_type_error (VObject "object") "content")).
Proof.
  apply (serialize_unsupported
           [("role", VStr "user"); ("content", VObject "object")] "content" "object").
  simpl. right. left. reflexivity.
Defined.

(** The message of the error of C4, spelled out at one input. *)
Example unsupported_message :
  serialize (VDict [("role", VStr "user"); ("content", VObject "object")])
  = Raise (TypeError "Unsupported data type: <class 'object'> for key content").
Proof. reflexivity. Qed.

(** C2. A field whose value is a boolean is stored under the tag [N]
    with the text [True] or [False], and not under [BOOL]: the test for
    [int], which a [bool] passes, comes first in [serialize]. *)
Theorem serialize_bool_tagged_number (key : string) (b : bool) :
  serialize (VDict [(key, VBool b)])
  = Ok (VDict [(key, VDict [("N", VStr (Py.str_bool b))])])
  /\ serialize (VDict [(key, VBool b)])
     <> Ok (VDict [(key, VDict [("BOOL", VBool b)])]).
Proof.
  assert (H : serialize (VDict [(key, VBool b)])
              = Ok (VDict [(key, VDict [("N", VStr (Py.str_bool b))])]))
    by reflexivity.
  split; [exact H|].
  rewrite H. intros Hbool. discriminate Hbool.
Qed.

(** The same in any dictionary: the field of a boolean comes out under
    the tag [N]. *)
Lemma serialize_bool_field (data out : dict) key (b : bool) :
  distinct (map fst data) = true ->
  In (key, VBool b) data ->
  serialize (VDict data) = Ok (VDict out) ->
  In (key, VDict [("N", VStr (Py.str_bool b))]) out.
Proof.
  intros Hd Hin Hser.
  rewrite serialize_unfold in Hser.
  apply bind_ok in Hser as (out' & Hloop & [= <-]).
  destruct (dict_loop_fields _ _ _ _ _ Hd Hloop Hin) as (c & Hout & Hc).
  injection Hc as <-. exact Hout.
Qed.

(** C1. The dictionary with the single field [flag] set to [True] does
    not come back from the codec: [serialize] stores the text [True]
    under the tag [N], which [deserialize] fails to read as a float. *)
Theorem roundtrip_bool_raises :
  (let* s := serialize (VDict [("flag", VBool true)]) in deserialize s)
  = Raise (ValueError "could not convert string to float: 'True'").
Proof. vm_compute. reflexivity. Qed.

(** A negative integer comes back from the codec as a float. *)
Lemma roundtrip_negative_int :
  (let* s := serialize (VDict [("n", VInt (-5))]) in deserialize s)
  = Ok (VDict [("n", VFloat minus_five)]).
Proof. vm_compute. reflexivity. Qed.

(** What [deserialize] does with a number tag, for every text [t]. *)
Lemma deserialize_number (key t : string) :
  deserialize (VDict [(key, VDict [("N", VStr t)])])
  = if Py.isdigit t then Ok (VDict [(key, VInt (Py.int_of_str t))])
    else match Py.float_of_str t with
         | Some x => Ok (VDict [(key, VFloat x)])
         | None => Raise (ValueError ("could not convert string to float: '" +:+ t +:+ "'"))
         end.
Proof.
  simpl. unfold deserialize_field. simpl.
  destruct (Py.isdigit t); simpl; [reflexivity|].
  destruct (Py.float_of_str t); reflexivity.
Qed.

(** C3. The text [-5], the decimal representation of an integer, is not
    read as the integer [-5]: it fails [isdigit] and is read as the float
    [-5.0]. *)
Theorem deserialize_negative_integer_text :
  Py.str_int (-5) = "-5"
  /\ deserialize (VDict [("n", VDict [("N", VStr "-5")])])
     = Ok (VDict [("n", VFloat minus_five)]).
Proof. split; vm_compute; reflexivity. Qed.

(** *** List-valued fields *)

Lemma deserialize_field_list key (l : list val) :
  deserialize_field deserialize key (VDict [("L", VList l)])
  = let* elems := mapM (fun v => if isinstance_dict v then deserialize v else Ok v) l in
    Ok (VList elems).
Proof. reflexivity. Qed.

Lemma deserialize_field_dict key (m : val) :
  deserialize_field deserialize key (VDict [("M", m)]) = deserialize m.
Proof. reflexivity. Qed.

Lemma deserialize_field_number key (t : string) :
  deserialize_field deserialize key (VDict [("N", VStr t)])
  = if Py.isdigit t then Ok (VInt (Py.int_of_str t))
    else match Py.float_of_str t with
         | Some x => Ok (VFloat x)
         | None => Raise (ValueError ("could not convert string to float: '" +:+ t +:+ "'"))
         end.
Proof.
  unfold deserialize_field. simpl.
  destruct (Py.isdigit t); simpl; [reflexivity|].
  destruct (Py.float_of_str t); reflexivity.
Qed.

Lemma serialize_dict_result (items : dict) s :
  serialize (VDict items) = Ok s -> exists out, s = VDict out.
Proof.
  rewrite serialize_unfold. intros H.
  apply bind_ok in H as (out & _ & [= <-]). eauto.
Qed.

(** A list whose dictionaries come back from the codec comes back
    itself, the other elements untouched in both directions. *)
Lemma codec_elements (elems : list val) :
  Forall (fun v => isinstance_dict v = true ->
                   exists s, serialize v = Ok s /\ deserialize s = Ok v) elems ->
  exists l,
    mapM (fun v => if isinstance_dict v then serialize v else Ok v) elems = Ok l
    /\ mapM (fun v => if isinstance_dict v then deserialize v else Ok v) l = Ok elems.
Proof.
  induction 1 as [|v elems Hv _ (l & Hser & Hde)].
  - exists []. split; reflexivity.
  - destruct (isinstance_dict v) eqn:E.
    + destruct (Hv eq_refl) as (s & Hs & Hd).
      destruct v as [| | | | |items| |]; try discriminate E.
      destruct (serialize_dict_result _ _ Hs) as (out & ->).
      exists (VDict out :: l). split; simpl.
      * simpl in Hs. rewrite Hs. simpl. rewrite Hser. reflexivity.
      * simpl in Hd. rewrite Hd. simpl. rewrite Hde. reflexivity.
    + exists (v :: l). split; simpl; rewrite E; simpl.
      * rewrite Hser. reflexivity.
      * rewrite Hde. reflexivity.
Qed.

(** C8. In a list-valued field [serialize] encodes the elements that are
    dictionaries by a recursive call and leaves every other element as it
    is; [deserialize] decodes the elements that are dictionaries by a
    recursive call and leaves every other element as it is; and a list
    whose dictionaries come back from the codec comes back itself. *)
Theorem list_field_codec :
  (forall (data out : dict) key elems,
      distinct (map fst data) = true ->
      In (key, VList elems) data ->
      serialize (VDict data) = Ok (VDict out) ->
      exists l,
        In (key, VDict [("L", VList l)]) out
        /\ Forall2 (fun v v' => if isinstance_dict v then serialize v = Ok v' else v' = v)
                   elems l)
  /\ (forall (data out : dict) key l,
      distinct (map fst data) = true ->
      In (key, VDict [("L", VList l)]) data ->
      deserialize (VDict data) = Ok (VDict out) ->
      exists elems,
        In (key, VList elems) out
        /\ Forall2 (fun v' v => if isinstance_dict v' then deserialize v' = Ok v else v = v')
                   l elems)
  /\ (forall key elems,
      Forall (fun v => isinstance_dict v = true ->
                       exists s, serialize v = Ok s /\ deserialize s = Ok v) elems ->
      (let* s := serialize (VDict [(key, VList elems)]) in deserialize s)
      = Ok (VDict [(key, VList elems)])).
Proof.
  split; [|split].
  - intros data out key elems Hd Hin Hser.
    rewrite serialize_unfold in Hser.
    apply bind_ok in Hser as (out' & Hloop & [= <-]).
    destruct (dict_loop_fields _ _ _ _ _ Hd Hloop Hin) as (c & Hout & Hc).
    rewrite serialize_field_list in Hc.
    apply bind_ok in Hc as (l & Hl & [= <-]).
    exists l. split; [exact Hout|].
    apply mapM_Forall2 in Hl.
    eapply Forall2_impl; [exact Hl|].
    intros v v' Hvv'. simpl in Hvv'.
    destruct (isinstance_dict v); [exact Hvv'|congruence].
  - intros data out key l Hd Hin Hde.
    rewrite deserialize_unfold in Hde.
    apply bind_ok in Hde as (out' & Hloop & [= <-]).
    destruct (dict_loop_fields _ _ _ _ _ Hd Hloop Hin) as (c & Hout & Hc).
    rewrite deserialize_field_list in Hc.
    apply bind_ok in Hc as (elems & Hl & [= <-]).
    exists elems. split; [exact Hout|].
    apply mapM_Forall2 in Hl.
    eapply Forall2_impl; [exact Hl|].
    intros v' v Hvv'. simpl in Hvv'.
    destruct (isinstance_dict v'); [exact Hvv'|congruence].
  - intros key elems Hall.
    destruct (codec_elements elems Hall) as (l & Hser & Hde).
    rewrite serialize_unfold. unfold serialize_items. simpl dict_loop.
    rewrite serialize_field_list, Hser. simpl.
    rewrite deserialize_field_list, Hde. reflexivity.
Qed.

Lemma list_field_codec_witness :
  (exists l,
      In ("tags", VDict [("L", VList l)])
         [("tags", VDict [("L", VList [VInt 1; VDict [("a", VDict [("S", VStr "b")])]; VBool true])])]
      /\ Forall2 (fun v v' => if isinstance_dict v then serialize v = Ok v' else v' = v)
                 [VInt 1; VDict [("a", VStr "b")]; VBool true] l)
  /\ (exists elems,
      In ("tags", VList elems)
         [("tags", VList [VInt 1; VDict [("a", VStr "b")]; VBool true])]
      /\ Forall2 (fun v' v => if isinstance_dict v' then deserialize v' = Ok v else v = v')
                 [VInt 1; VDict [("a", VDict [("S", VStr "b")])]; VBool true] elems)
  /\ (let* s := serialize (VDict [("tags", VList [VInt (-1); VDict [("a", VStr "b")]; VBool true])]) in
      deserialize s)
     = Ok (VDict [("tags", VList [VInt (-1); VDict [("a", VStr "b")]; VBool true])]).
Proof.
  split; [|split].
  - apply (proj1 list_field_codec
             [("tags", VList [VInt 1; VDict [("a", VStr "b")]; VBool true])]
             [("tags", VDict [("L", VList [VInt 1; VDict [("a", VDict [("S", VStr "b")])]; VBool true])])]
             "tags" [VInt 1; VDict [("a", VStr "b")]; VBool true]).
    + reflexivity.
    + left. reflexivity.
    + reflexivity.
  - apply (proj1 (proj2 list_field_codec)
             [("tags", VDict [("L", VList [VInt 1; VDict [("a", VDict [("S", VStr "b")])]; VBool true])])]
             [("tags", VList [VInt 1; VDict [("a", VStr "b")]; VBool true])]
             "tags" [VInt 1; VDict [("a", VDict [("S", VStr "b")])]; VBool true]).
    + reflexivity.
    + left. reflexivity.
    + reflexivity.
  - apply (proj2 (proj2 list_field_codec) "tags"
             [VInt (-1); VDict [("a", VStr "b")]; VBool true]).
    repeat constructor; try discriminate.
    intros _. eexists. split; reflexivity.
Defined.

(** *** Values that come back from the codec *)

Lemma sf_eqb_eq x y : Py.sf_eqb x y = true -> x = y.
Proof.
  destruct x as [s1|s1| |s1 m1 e1], y as [s2|s2| |s2 m2 e2]; simpl;
    try discriminate; try reflexivity.
  - intros H. apply Bool.eqb_prop in H. congruence.
  - intros H. apply Bool.eqb_prop in H. congruence.
  - intros H. apply andb_true_iff in H as [H He].
    apply andb_true_iff in H as [Hs Hm].
    apply Bool.eqb_prop in Hs. apply Pos.eqb_eq in Hm. apply Z.eqb_eq in He.
    congruence.
Qed.

(** The two loops undo each other on distinct keys when the two field
    conversions do. *)
Lemma codec_items (items : dict) :
  distinct (map fst items) = true ->
  Forall (fun kv => forall key, exists t,
              serialize_field serialize key (snd kv) = Ok t
              /\ deserialize_field deserialize key t = Ok (snd kv)) items ->
  exists out,
    serialize (VDict items) = Ok (VDict out)
    /\ deserialize (VDict out) = Ok (VDict items).
Proof.
  intros Hd Hall.
  assert (H : exists out,
             mapM (fun kv => let* c := serialize_field serialize (fst kv) (snd kv) in
                             Ok (fst kv, c)) items = Ok out
             /\ mapM (fun kv => let* c := deserialize_field deserialize (fst kv) (snd kv) in
                                Ok (fst kv, c)) out = Ok items
             /\ map fst out = map fst items).
  { clear Hd. induction Hall as [|[k v] items Hv _ (out & Hs & Hde & Hk)].
    - exists []. repeat split.
    - destruct (Hv k) as (t & Ht & Ht'). simpl in Ht, Ht'.
      exists ((k, t) :: out). simpl. rewrite Ht, Ht'. simpl.
      rewrite Hs, Hde, Hk. repeat split. }
  destruct H as (out & Hs & Hde & Hk).
  exists out. split.
  - rewrite serialize_unfold. unfold serialize_items.
    rewrite dict_loop_distinct by exact Hd. rewrite Hs. reflexivity.
  - rewrite deserialize_unfold. unfold deserialize_items.
    rewrite dict_loop_distinct by (simpl; rewrite Hk; exact Hd).
    rewrite Hde. reflexivity.
Qed.

Lemma codec_field_roundtrip : forall v,
  stable v = true ->
  forall key, exists t,
    serialize_field serialize key v = Ok t
    /\ deserialize_field deserialize key t = Ok v.
Proof.
  induction v as [s|n|x|b| |items IH|elems IH|cls] using val_induction;
    intros Hst key; try discriminate Hst.
  - eexists. split; reflexivity.
  - simpl in Hst. apply Z.leb_le in Hst.
    exists (VDict [("N", VStr (Py.str_int n))]). split; [reflexivity|].
    rewrite deserialize_field_number, isdigit_str_int, int_of_str_str_int by lia.
    reflexivity.
  - simpl in Hst. unfold float_stable in Hst.
    apply andb_true_iff in Hst as [Hnd Hback]. apply negb_true_iff in Hnd.
    exists (VDict [("N", VStr (Py.str_float x))]). split; [reflexivity|].
    rewrite deserialize_field_number, Hnd.
    destruct (Py.float_of_str (Py.str_float x)) as [y|]; [|discriminate].
    apply sf_eqb_eq in Hback. subst y. reflexivity.
  - eexists. split; reflexivity.
  - simpl in Hst. apply andb_true_iff in Hst as [Hd Hall].
    rewrite forallb_forall in Hall. rewrite List.Forall_forall in IH.
    destruct (codec_items items Hd) as (out & Hs & Hde).
    { apply List.Forall_forall. intros kv Hin. apply IH; auto. }
    exists (VDict [("M", VDict out)]). split.
    + rewrite serialize_field_dict, Hs. reflexivity.
    + rewrite deserialize_field_dict. exact Hde.
  - simpl in Hst. rewrite forallb_forall in Hst. rewrite List.Forall_forall in IH.
    destruct (codec_elements elems) as (l & Hs & Hde).
    { apply List.Forall_forall. intros v Hin Hdict.
      specialize (Hst v Hin). rewrite Hdict in Hst.
      destruct (IH v Hin Hst key) as (t & Ht & Ht').
      destruct v as [| | | | |d| |]; try discriminate Hdict.
      rewrite serialize_field_dict in Ht.
      apply bind_ok in Ht as (m & Hm & [= <-]).
      rewrite deserialize_field_dict in Ht'. eauto. }
    exists (VDict [("L", VList l)]). split.
    + rewrite serialize_field_list, Hs. reflexivity.
    + rewrite deserialize_field_list, Hde. reflexivity.
Qed.

(** The codec is the identity on the dictionaries built from strings,
    non-negative integers, floats whose text reads back, [None], nested
    dictionaries with distinct keys, and lists. *)
Theorem codec_roundtrip (data : dict) :
  stable (VDict data) = true ->
  exists s, serialize (VDict data) = Ok s /\ deserialize s = Ok (VDict data).
Proof.
  intros Hst. simpl in Hst. apply andb_true_iff in Hst as [Hd Hall].
  rewrite forallb_forall in Hall.
  destruct (codec_items data Hd) as (out & Hs & Hde).
  - apply List.Forall_forall. intros kv Hin.
    apply codec_field_roundtrip. auto.
  - eauto.
Qed.

(** *** Plain values are always serialized *)

Lemma dict_loop_total field (items : dict) :
  Forall (fun kv => forall key : string, exists t : val, field key (snd kv) = Ok t) items ->
  forall acc : dict, exists out, dict_loop field items acc = Ok out.
Proof.
  induction 1 as [|[k v] items Hv _ IH]; intros acc; simpl; [eauto|].
  destruct (Hv k) as (t & Ht). simpl in Ht. rewrite Ht. simpl. apply IH.
Qed.

Lemma serialize_field_plain : forall v,
  plain v = true -> forall key, exists t, serialize_field serialize key v = Ok t.
Proof.
  induction v as [s|n|x|b| |items IH|elems IH|cls] using val_induction;
    intros Hp key; try discriminate Hp; try (eexists; reflexivity).
  - simpl in Hp. rewrite forallb_forall in Hp. rewrite List.Forall_forall in IH.
    destruct (dict_loop_total (serialize_field serialize) items) with (acc := @nil (string * val))
      as (out & Hout).
    { apply List.Forall_forall. intros kv Hin. apply IH; auto. }
    rewrite serialize_field_dict, serialize_unfold. unfold serialize_items.
    rewrite Hout. simpl. eauto.
  - simpl in Hp. rewrite forallb_forall in Hp. rewrite List.Forall_forall in IH.
    destruct (mapM_total (fun v => if isinstance_dict v then serialize v else Ok v) elems)
      as (l & Hl).
    { apply List.Forall_forall. intros v Hin.
      destruct (isinstance_dict v) eqn:E; [|eauto].
      destruct (IH v Hin (Hp v Hin) key) as (t & Ht).
      destruct v as [| | | | |d| |]; try discriminate E.
      rewrite serialize_field_dict in Ht.
      apply bind_ok in Ht as (m & Hm & _). eauto. }
    rewrite serialize_field_list, Hl. simpl. eauto.
Qed.

Lemma serialize_plain (data : dict) :
  plain (VDict data) = true -> exists out, serialize (VDict data) = Ok (VDict out).
Proof.
  intros Hp.
  destruct (serialize_field_plain (VDict data) Hp EmptyString) as (t & Ht).
  rewrite serialize_field_dict in Ht.
  apply bind_ok in Ht as (m & Hm & _).
  destruct (serialize_dict_result _ _ Hm) as (out & ->). eauto.
Qed.

End Codec.

(** ** The chat store *)

Section ChatStore.

Implicit Types (st : store) (key pk rk : string) (t : gmap (string * string) val).

Local Arguments serialize : simpl never.
Local Arguments deserialize : simpl never.

(** The items of a partition are the entries of the table under its key. *)
Lemma elem_of_partition pk t rk msg :
  (rk, msg) ∈ partition pk t <-> t !! (pk, rk) = Some msg.
Proof.
  unfold partition. rewrite list_elem_of_omap. split.
  - intros ([[p r] m] & Hin & Hsome). simpl in Hsome.
    destruct (decide (p = pk)) as [->|]; [|discriminate].
    injection Hsome as -> ->. apply elem_of_map_to_list in Hin. exact Hin.
  - intros Hlook. exists ((pk, rk), msg). split.
    + apply elem_of_map_to_list. exact Hlook.
    + simpl. destruct (decide (pk = pk)); [reflexivity|contradiction].
Qed.

Lemma query_spec key st :
  query key st
  = (Ok (merge_sort rowkey_le (partition key (table st))), sent st (Query key)).
Proof. reflexivity. Qed.

Lemma elem_of_query key st rk msg response st' :
  query key st = (Ok response, st') ->
  (rk, msg) ∈ response <-> table st !! (key, rk) = Some msg.
Proof.
  rewrite query_spec. intros [= <- <-].
  rewrite merge_sort_Permutation. apply elem_of_partition.
Qed.

Lemma get_messages_spec key st :
  get_messages key st
  = (mapM (fun item => let* d := deserialize (snd item) in parse_obj d)
          (merge_sort rowkey_le (partition key (table st))),
     sent st (Query key)).
Proof. reflexivity. Qed.

(** An empty history is an empty partition. *)
Lemma get_messages_empty key st :
  fst (get_messages key st) = Ok [] ->
  forall rk, table st !! (key, rk) = None.
Proof.
  rewrite get_messages_spec. simpl. intros H rk.
  apply mapM_Forall2 in H. apply Forall2_nil_inv_r in H.
  destruct (table st !! (key, rk)) as [msg|] eqn:E; [|reflexivity].
  apply elem_of_partition in E.
  rewrite <- (merge_sort_Permutation rowkey_le) in E.
  rewrite H in E. inversion E.
Qed.

(** C9. [delete_message] raises nothing and sends one delete request, for
    the row key of [idx] under [key]: the item stored there, if any, is
    gone; every other item, whether under another row key of [key] or
    under another key, stays under its row key with its content; and a
    table without that item is left as it was. *)
Theorem delete_message_frame key (idx : Z) st :
  exists st',
    delete_message key idx st = (Ok tt, st')
    /\ requests st' = requests st ++ [DeleteItem key (_to_row_key idx)]
    /\ table st' !! (key, _to_row_key idx) = None
    /\ (forall pk rk,
          (pk, rk) <> (key, _to_row_key idx) ->
          table st' !! (pk, rk) = table st !! (pk, rk))
    /\ (table st !! (key, _to_row_key idx) = None -> table st' = table st).
Proof.
  eexists. split; [reflexivity|]. simpl. repeat split.
  - apply lookup_delete_eq.
  - intros pk rk Hne. apply lookup_delete_ne. congruence.
  - apply delete_id.
Qed.

(** C10. On an empty history [delete_last_message] raises nothing: after
    the query that reads the history it sends one delete request, for the
    row key of the index -1, which is the text [-000000001]; no item is
    stored there and the table is left as it was. *)
Theorem delete_last_message_empty key st :
  fst (get_messages key st) = Ok [] ->
  exists st',
    delete_last_message key st = (Ok tt, st')
    /\ requests st' = requests st ++ [Query key; DeleteItem key "-000000001"]
    /\ _to_row_key (-1) = "-000000001"
    /\ table st !! (key, "-000000001") = None
    /\ table st' = table st.
Proof.
  intros Hempty.
  pose proof (get_messages_empty key st Hempty "-000000001") as Hnone.
  unfold delete_last_message, io_bind.
  destruct (get_messages key st) as [[messages|e] st1] eqn:Hget;
    simpl in Hempty; [|discriminate].
  injection Hempty as ->.
  rewrite get_messages_spec in Hget. injection Hget as _ <-.
  eexists. split; [reflexivity|]. simpl. repeat split.
  - rewrite <- app_assoc. reflexivity.
  - exact Hnone.
  - apply delete_id. exact Hnone.
Qed.

Lemma delete_last_message_empty_witness :
  exists st',
    delete_last_message "conv1" (Store ∅ []) = (Ok tt, st')
    /\ requests st' = [] ++ [Query "conv1"; DeleteItem "conv1" "-000000001"]
    /\ _to_row_key (-1) = "-000000001"
    /\ (∅ : gmap (string * string) val) !! ("conv1", "-000000001") = None
    /\ table st' = ∅.
Proof. apply (delete_last_message_empty "conv1" (Store ∅ [])). reflexivity. Defined.

(** [serialize] raises nothing but the error for an unsupported class. *)
Lemma serialize_raise (data : dict) e :
  serialize (VDict data) = Raise e ->
  exists key cls, e = unsupported_type_error (VObject cls) key.
Proof.
  rewrite serialize_unfold. intros H.
  apply bind_raise in H as [H|(out & _ & H)]; [|discriminate].
  apply dict_loop_raise in H as (k & v & _ & Hf).
  apply serialize_field_raise in Hf as (key & cls & -> & _). eauto.
Qed.

Lemma add_message_spec key (message : dict) idx st messages st' :
  get_messages key st = (Ok messages, st') ->
  add_message key message idx st =
  let n := Z.of_nat (List.length messages) in
  match idx with
  | Some i =>
      if i >? n then (Raise (index_error i), st')
      else match serialize (VDict message) with
           | Ok msg => put_item key (_to_row_key i) msg st'
           | Raise e => (Raise e, st')
           end
  | None =>
      match serialize (VDict message) with
      | Ok msg => put_item key (_to_row_key n) msg st'
      | Raise e => (Raise e, st')
      end
  end.
Proof.
  intros Hget. unfold add_message, io_bind at 1. rewrite Hget.
  destruct idx as [i|]; simpl.
  - destruct (i >? Z.of_nat (List.length messages)); simpl; [reflexivity|].
    unfold io_bind, lift, message_dict.
    destruct (serialize (VDict message)); reflexivity.
  - unfold io_bind, lift, message_dict, io_ret.
    destruct (serialize (VDict message)); reflexivity.
Qed.

(** C5. With [n] the length of the history read for [key]:
    [add_message] raises the index error exactly when an index is given
    and is greater than [n], and then writes nothing; with the index
    omitted, a message of plain values is written under the row key of
    [n], and with an index up to [n] under the row key of that index. *)
Theorem add_message_index_check key (message : dict) (idx : option Z) st messages st' :
  get_messages key st = (Ok messages, st') ->
  let n := Z.of_nat (List.length messages) in
  ((exists i, fst (add_message key message idx st) = Raise (index_error i))
   <-> (exists i, idx = Some i /\ n < i))
  /\ (forall i, idx = Some i -> n < i ->
        add_message key message idx st = (Raise (index_error i), st'))
  /\ (plain (VDict message) = true ->
      forall i, (idx = None /\ i = n) \/ (idx = Some i /\ i <= n) ->
      exists msg,
        serialize (VDict message) = Ok msg
        /\ add_message key message idx st
           = (Ok tt, Store (<[(key, _to_row_key i) := msg]> (table st'))
                           (requests st' ++ [PutItem key (_to_row_key i) msg]))).
Proof.
  intros Hget n.
  rewrite (add_message_spec key message idx st messages st' Hget).
  cbv zeta. fold n.
  split; [|split].
  - split.
    + intros (i & Hraise).
      destruct idx as [j|].
      * destruct (j >? n) eqn:E.
        -- exists j. split; [reflexivity|]. apply Z.gtb_lt in E. lia.
        -- destruct (serialize (VDict message)) as [msg|e] eqn:Hs;
             [discriminate Hraise|].
           apply serialize_raise in Hs as (k & cls & ->). discriminate Hraise.
      * destruct (serialize (VDict message)) as [msg|e] eqn:Hs;
          [discriminate Hraise|].
        apply serialize_raise in Hs as (k & cls & ->). discriminate Hraise.
    + intros (i & -> & Hi). exists i.
      assert (E : (i >? n) = true) by (apply Z.gtb_lt; lia).
      rewrite E. reflexivity.
  - intros i -> Hi.
    assert (E : (i >? n) = true) by (apply Z.gtb_lt; lia).
    rewrite E. reflexivity.
  - intros Hplain i Hcase.
    destruct (serialize_plain message Hplain) as (out & Hs).
    exists (VDict out). split; [exact Hs|].
    destruct Hcase as [[-> ->]|[-> Hi]].
    + rewrite Hs. reflexivity.
    + assert (E : (i >? n) = false).
      { destruct (i >? n) eqn:E'; [apply Z.gtb_lt in E'; lia|reflexivity]. }
      rewrite E, Hs. reflexivity.
Qed.

(** *** The order of row keys in a query *)

Lemma string_leb_trans a : forall b c,
  String.leb a b = true -> String.leb b c = true -> String.leb a c = true.
Proof.
  unfold String.leb.
  induction a as [|x a IH]; intros [|y b] [|z c]; simpl; try congruence.
  unfold Ascii.compare.
  destruct (N.compare_spec (N_of_ascii x) (N_of_ascii y)) as [Hxy|Hxy|Hxy];
    destruct (N.compare_spec (N_of_ascii y) (N_of_ascii z)) as [Hyz|Hyz|Hyz];
    try congruence.
  - rewrite Hxy, Hyz, N.compare_refl. apply IH.
  - rewrite Hxy. apply N.compare_lt_iff in Hyz. rewrite Hyz. congruence.
  - rewrite <- Hyz. apply N.compare_lt_iff in Hxy. rewrite Hxy. congruence.
  - assert (H : (N_of_ascii x < N_of_ascii z)%N) by lia.
    apply N.compare_lt_iff in H. rewrite H. congruence.
Qed.

Global Instance rowkey_le_transitive : Transitive rowkey_le.
Proof. intros a b c. unfold rowkey_le. apply string_leb_trans. Qed.

Global Instance rowkey_le_total : Total rowkey_le.
Proof. intros a b. unfold rowkey_le. apply String.leb_total. Qed.

Lemma string_ltb_leb a b : String.ltb a b = true -> String.leb a b = true.
Proof. unfold String.ltb, String.leb. destruct (String.compare a b); congruence. Qed.

Lemma string_compare_refl a : String.compare a a = Eq.
Proof.
  induction a as [|x a IH]; simpl; [reflexivity|].
  unfold Ascii.compare. rewrite N.compare_refl. exact IH.
Qed.

Lemma string_ltb_neq a b : String.ltb a b = true -> a <> b.
Proof.
  unfold String.ltb. intros H ->.
  rewrite string_compare_refl in H. discriminate.
Qed.

(** The row keys written from [start] on are above the row key of every
    earlier index, as long as the indices stay below [10^10]. *)
Lemma rows_above (msgs : list val) : forall start i,
  0 <= i < start -> start + Z.of_nat (List.length msgs) <= 10 ^ 10 ->
  Forall (fun r => String.ltb (_to_row_key i) (fst r) = true) (rows start msgs).
Proof.
  induction msgs as [|m msgs IH]; intros start i Hi Hlen; simpl; constructor.
  - simpl. apply row_key_ltb; simpl List.length in Hlen; lia.
  - apply IH; simpl List.length in Hlen; lia.
Qed.

Lemma rows_sorted (msgs : list val) : forall start,
  0 <= start -> start + Z.of_nat (List.length msgs) <= 10 ^ 10 ->
  Sorted rowkey_le (rows start msgs).
Proof.
  induction msgs as [|m msgs IH]; intros start H0 Hlen; simpl; constructor.
  - apply IH; simpl List.length in Hlen; lia.
  - pose proof (rows_above msgs (start + 1) start) as Habove.
    destruct (rows (start + 1) msgs) as [|r rs]; constructor.
    assert (Hr : Forall (fun r => String.ltb (_to_row_key start) (fst r) = true) (r :: rs)).
    { apply Habove; simpl List.length in Hlen; lia. }
    inversion Hr; subst. unfold rowkey_le. simpl. apply string_ltb_leb. assumption.
Qed.

Lemma rows_NoDup (msgs : list val) : forall start,
  0 <= start -> start + Z.of_nat (List.length msgs) <= 10 ^ 10 ->
  NoDup (map fst (rows start msgs)).
Proof.
  induction msgs as [|m msgs IH]; intros start H0 Hlen; simpl; constructor.
  - intros Hin. apply list_elem_of_fmap in Hin as (r & Hr & Hin).
    pose proof (rows_above msgs (start + 1) start) as Habove.
    rewrite Forall_forall in Habove.
    apply (string_ltb_neq (_to_row_key start) (fst r)); [|exact Hr].
    apply Habove; [simpl List.length in Hlen; lia..|exact Hin].
  - apply IH; simpl List.length in Hlen; lia.
Qed.

(** *** What the writes of [set_messages] leave in the table *)

Lemma io_bind_ok {A B : Type} (m : io A) (k : A -> io B) st a st' :
  m st = (Ok a, st') -> io_bind m k st = k a st'.
Proof. intros H. unfold io_bind. rewrite H. reflexivity. Qed.

Lemma delete_all_spec key (response : list (string * val)) : forall st,
  io_for response (fun item => delete_item key (fst item)) st
  = (Ok tt, Store (foldl (delete_row key) (table st) response)
                  (requests st ++ map (fun item => DeleteItem key (fst item)) response)).
Proof.
  induction response as [|item response IH]; intros st; simpl.
  - rewrite app_nil_r. destruct st; reflexivity.
  - unfold io_bind. simpl. rewrite IH. simpl.
    rewrite <- app_assoc. reflexivity.
Qed.

Lemma lookup_delete_all key (response : list (string * val)) : forall t rk v,
  foldl (delete_row key) t response !! (key, rk) = Some v ->
  t !! (key, rk) = Some v /\ rk ∉ map fst response.
Proof.
  induction response as [|item response IH]; intros t rk v H; simpl in *.
  - split; [exact H|]. apply not_elem_of_nil.
  - apply IH in H as [H Hnot]. unfold delete_row in H.
    apply lookup_delete_Some in H as [Hne H].
    split; [exact H|]. apply not_elem_of_cons. split; [congruence|exact Hnot].
Qed.

Lemma lookup_delete_all_other key (response : list (string * val)) : forall t pk rk,
  pk <> key ->
  foldl (delete_row key) t response !! (pk, rk) = t !! (pk, rk).
Proof.
  induction response as [|item response IH]; intros t pk rk Hne; simpl; [reflexivity|].
  rewrite IH by exact Hne. unfold delete_row. apply lookup_delete_ne. congruence.
Qed.

Lemma put_all_spec key (messages : list dict) (msgs : list val) :
  Forall2 (fun m s => serialize (VDict m) = Ok s) messages msgs ->
  forall start st,
    io_for (enumerate_from start messages) (fun im =>
      let! msg := lift (serialize (message_dict (snd im))) in
      put_item key (_to_row_key (fst im)) msg) st
    = (Ok tt, Store (foldl (insert_row key) (table st) (rows start msgs))
                    (requests st ++ map (fun r => PutItem key (fst r) (snd r)) (rows start msgs))).
Proof.
  induction 1 as [|m s messages msgs Hs _ IH]; intros start st; simpl.
  - rewrite app_nil_r. destruct st; reflexivity.
  - rewrite (io_bind_ok _ _ st tt
               (Store (insert_row key (table st) (_to_row_key start, s))
                      (requests st ++ [PutItem key (_to_row_key start) s]))).
    + rewrite IH. simpl. rewrite <- app_assoc. reflexivity.
    + simpl. unfold io_bind, lift, message_dict. rewrite Hs. reflexivity.
Qed.

Lemma lookup_put_all key (rs : list (string * val)) : forall t rk v,
  NoDup (map fst rs) ->
  foldl (insert_row key) t rs !! (key, rk) = Some v
  <-> (rk, v) ∈ rs \/ ((rk ∉ map fst rs) /\ t !! (key, rk) = Some v).
Proof.
  induction rs as [|[r m] rs IH]; intros t rk v Hnd; simpl.
  - split.
    + intros H. right. split; [apply not_elem_of_nil|exact H].
    + intros [H|[_ H]]; [inversion H|exact H].
  - apply NoDup_cons in Hnd as [Hr Hnd]. rewrite IH by exact Hnd.
    unfold insert_row at 1. simpl. rewrite lookup_insert_Some.
    rewrite elem_of_cons, not_elem_of_cons. split.
    + intros [H|[Hnot [[Heq <-]|[Hne H]]]].
      * left. right. exact H.
      * injection Heq as <-. left. left. reflexivity.
      * right. repeat split; [congruence|exact Hnot|exact H].
    + intros [[Heq|H]|[[Hne Hnot] H]].
      * injection Heq as -> ->. right. split; [exact Hr|]. left. split; reflexivity.
      * left. exact H.
      * right. split; [exact Hnot|]. right. split; [congruence|exact H].
Qed.

Lemma NoDup_omap_inj {A B : Type} (f : A -> option B) (l : list A) :
  (forall x y z, f x = Some z -> f y = Some z -> x = y) ->
  NoDup l -> NoDup (omap f l).
Proof.
  intros Hinj. induction 1 as [|x l Hx _ IH]; simpl; [constructor|].
  destruct (f x) as [z|] eqn:E; [|exact IH].
  constructor; [|exact IH].
  intros Hin. apply list_elem_of_omap in Hin as (y & Hy & Hfy).
  rewrite (Hinj x y z E Hfy) in Hx. contradiction.
Qed.

Lemma NoDup_fst_unique {A B : Type} (l : list (A * B)) x y1 y2 :
  NoDup (map fst l) -> (x, y1) ∈ l -> (x, y2) ∈ l -> y1 = y2.
Proof.
  induction l as [|[a b] l IH]; intros Hnd H1 H2; [inversion H1|].
  simpl in Hnd. apply NoDup_cons in Hnd as [Ha Hnd].
  apply elem_of_cons in H1 as [H1|H1]; apply elem_of_cons in H2 as [H2|H2].
  - congruence.
  - injection H1 as -> ->. exfalso. apply Ha.
    apply list_elem_of_fmap. exists (a, y2). split; [reflexivity|exact H2].
  - injection H2 as -> ->. exfalso. apply Ha.
    apply list_elem_of_fmap. exists (a, y1). split; [reflexivity|exact H1].
  - apply IH; assumption.
Qed.

Lemma partition_NoDup pk t : NoDup (partition pk t).
Proof.
  unfold partition. apply NoDup_omap_inj; [|apply NoDup_map_to_list].
  intros [[p1 r1] m1] [[p2 r2] m2] z; simpl.
  destruct (decide (p1 = pk)) as [->|]; [|discriminate].
  destruct (decide (p2 = pk)) as [->|]; [|discriminate].
  congruence.
Qed.

Lemma query_permutation key t (rs : list (string * val)) :
  NoDup (map fst rs) ->
  (forall rk v, t !! (key, rk) = Some v <-> (rk, v) ∈ rs) ->
  merge_sort rowkey_le (partition key t) ≡ₚ rs.
Proof.
  intros Hnd Hrows.
  rewrite merge_sort_Permutation. apply NoDup_Permutation.
  - apply partition_NoDup.
  - eapply NoDup_fmap_1. exact Hnd.
  - intros [rk v]. rewrite elem_of_partition. apply Hrows.
Qed.

(** A partition that holds the sorted rows [rs] and nothing else is
    returned by a query as [rs]. *)
Lemma query_rows key t (rs : list (string * val)) :
  Sorted rowkey_le rs -> NoDup (map fst rs) ->
  (forall rk v, t !! (key, rk) = Some v <-> (rk, v) ∈ rs) ->
  merge_sort rowkey_le (partition key t) = rs.
Proof.
  intros Hsorted Hnd Hrows.
  pose proof (query_permutation key t rs Hnd Hrows) as Hperm.
  apply (Sorted_unique_strong rowkey_le);
    [|apply Sorted_merge_sort; apply _|exact Hsorted|exact Hperm].
  intros [r1 v1] [r2 v2] H1 H2 Hle1 Hle2.
  rewrite Hperm in H1.
  assert (r1 = r2) by (apply String.leb_antisym; assumption). subst r2.
  f_equal. exact (NoDup_fst_unique rs r1 v1 v2 Hnd H1 H2).
Qed.

(** [set_messages] leaves, under [key], the rows of the serialized
    messages and nothing else. *)
Lemma set_messages_spec key (messages : list dict) (msgs : list val) st :
  Forall2 (fun m s => serialize (VDict m) = Ok s) messages msgs ->
  NoDup (map fst (rows 0 msgs)) ->
  exists st1,
    set_messages key messages st = (Ok tt, st1)
    /\ forall rk v, table st1 !! (key, rk) = Some v <-> (rk, v) ∈ rows 0 msgs.
Proof.
  intros Hser Hnd.
  set (response := merge_sort rowkey_le (partition key (table st))).
  set (cleared := foldl (delete_row key) (table st) response).
  set (written := foldl (insert_row key) cleared (rows 0 msgs)).
  assert (Hset : exists log, set_messages key messages st = (Ok tt, Store written log)).
  { unfold set_messages, io_bind at 1. rewrite query_spec. fold response.
    unfold io_bind at 1. rewrite delete_all_spec. unfold enumerate.
    rewrite (put_all_spec key messages msgs Hser). simpl. eauto. }
  destruct Hset as (log & Hset).
  exists (Store written log). split; [exact Hset|].
  intros rk v. simpl table. unfold written.
  rewrite lookup_put_all by exact Hnd.
  split; [|auto].
  intros [H|[_ H]]; [exact H|].
  apply lookup_delete_all in H as [H Hnot].
  exfalso. apply Hnot. apply list_elem_of_fmap. exists (rk, v). split; [reflexivity|].
  unfold response. rewrite merge_sort_Permutation. apply elem_of_partition. exact H.
Qed.

Lemma decode_rows (messages : list dict) (msgs : list val) :
  Forall2 (fun m s => deserialize s = Ok (VDict m)) messages msgs ->
  forall start,
    mapM (fun item => let* d := deserialize (snd item) in parse_obj d) (rows start msgs)
    = Ok messages.
Proof.
  induction 1 as [|m s messages msgs Hs _ IH]; intros start; simpl; [reflexivity|].
  rewrite Hs. simpl. rewrite IH. reflexivity.
Qed.

Lemma Forall_exists_Forall2 {A B : Type} (R : A -> B -> Prop) (l : list A) :
  Forall (fun a => exists b, R a b) l -> exists l', Forall2 R l l'.
Proof.
  induction 1 as [|a l [b Hb] _ [l' Hl']].
  - exists []. constructor.
  - exists (b :: l'). constructor; assumption.
Qed.

(** C7, amended. For at most [10^10] messages, each of which the
    codec serializes and reads back as itself, [set_messages] raises
    nothing and [get_messages] on the store it leaves returns exactly
    these messages in their order, whatever the table held before. *)
Theorem set_then_get_messages key (messages : list dict) st :
  Z.of_nat (List.length messages) <= 10 ^ 10 ->
  Forall (fun m => exists s, serialize (VDict m) = Ok s /\ deserialize s = Ok (VDict m))
         messages ->
  exists st1 st2,
    set_messages key messages st = (Ok tt, st1)
    /\ get_messages key st1 = (Ok messages, st2).
Proof.
  intros Hlen Hcodec.
  apply Forall_exists_Forall2 in Hcodec as (msgs & Hcodec).
  assert (Hser : Forall2 (fun m s => serialize (VDict m) = Ok s) messages msgs).
  { eapply Forall2_impl; [exact Hcodec|]. intros m s [H _]. exact H. }
  assert (Hde : Forall2 (fun m s => deserialize s = Ok (VDict m)) messages msgs).
  { eapply Forall2_impl; [exact Hcodec|]. intros m s [_ H]. exact H. }
  assert (Hlen' : Z.of_nat (List.length msgs) <= 10 ^ 10).
  { apply Forall2_length in Hser. rewrite <- Hser. exact Hlen. }
  assert (Hnd : NoDup (map fst (rows 0 msgs))) by (apply rows_NoDup; lia).
  destruct (set_messages_spec key messages msgs st Hser Hnd) as (st1 & Hset & Hrows).
  exists st1, (sent st1 (Query key)).
  split; [exact Hset|].
  rewrite get_messages_spec. f_equal.
  rewrite (query_rows key (table st1) (rows 0 msgs)).
  - apply decode_rows. exact Hde.
  - apply rows_sorted; lia.
  - exact Hnd.
  - exact Hrows.
Qed.

Lemma set_then_get_messages_witness :
  exists st1 st2,
    set_messages "conv1" [msgA; msgB] store3 = (Ok tt, st1)
    /\ get_messages "conv1" st1 = (Ok [msgA; msgB], st2).
Proof.
  apply (set_then_get_messages "conv1" [msgA; msgB] store3).
  - vm_compute. discriminate.
  - constructor; [codec_evaluates|].
    constructor; [codec_evaluates|].
    constructor.
Defined.

(** A message with a boolean among its fields is stored by
    [set_messages] without an error and is not read back: [get_messages]
    raises on the text that the codec wrote for the boolean. *)
Lemma set_then_get_flag_message :
  fst (set_messages "conv1" [msg_flag] empty_store) = Ok tt
  /\ fst (get_messages "conv1" (snd (set_messages "conv1" [msg_flag] empty_store)))
     = Raise (ValueError "could not convert string to float: 'True'").
Proof. split; vm_compute; reflexivity. Qed.

Lemma store3_history :
  get_messages "conv1" store3 = (Ok [msgA; msgB; msgC], sent store3 (Query "conv1")).
Proof. vm_compute. reflexivity. Qed.

Lemma add_message_index_check_witness :
  add_message "conv1" msgD (Some 5) store3
  = (Raise (index_error 5), sent store3 (Query "conv1"))
  /\ exists msg,
       serialize (VDict msgD) = Ok msg
       /\ add_message "conv1" msgD None store3
          = (Ok tt, Store (<[("conv1", _to_row_key 3) := msg]> (table (sent store3 (Query "conv1"))))
                          (requests (sent store3 (Query "conv1"))
                           ++ [PutItem "conv1" (_to_row_key 3) msg])).
Proof.
  split.
  - apply (proj1 (proj2 (add_message_index_check "conv1" msgD (Some 5) store3
                           [msgA; msgB; msgC] (sent store3 (Query "conv1"))
                           store3_history)) 5 eq_refl).
    reflexivity.
  - apply (proj2 (proj2 (add_message_index_check "conv1" msgD None store3
                           [msgA; msgB; msgC] (sent store3 (Query "conv1"))
                           store3_history)) eq_refl 3).
    left. split; reflexivity.
Defined.

(** *** Deleting a history *)

Lemma partition_empty key t :
  (forall rk, t !! (key, rk) = None) -> partition key t = [].
Proof.
  intros Hnone. destruct (partition key t) as [|[rk v] rest] eqn:E; [reflexivity|].
  assert (Hin : (rk, v) ∈ partition key t) by (rewrite E; left).
  apply elem_of_partition in Hin. rewrite Hnone in Hin. discriminate.
Qed.

(** After [delete_messages] the history of [key] is empty and the items
    of the other keys are as before. *)
Lemma delete_messages_clears key st :
  exists st1 st2,
    delete_messages key st = (Ok tt, st1)
    /\ get_messages key st1 = (Ok [], st2)
    /\ forall pk rk, pk <> key -> table st1 !! (pk, rk) = table st !! (pk, rk).
Proof.
  unfold delete_messages, io_bind. rewrite query_spec, delete_all_spec.
  eexists. eexists. split; [reflexivity|]. split.
  - rewrite get_messages_spec. simpl table. rewrite partition_empty; [reflexivity|].
    intros rk.
    destruct (foldl _ _ _ !! (key, rk)) as [v|] eqn:E; [|reflexivity].
    apply lookup_delete_all in E as [E Hnot].
    exfalso. apply Hnot. apply list_elem_of_fmap. exists (rk, v). split; [reflexivity|].
    rewrite merge_sort_Permutation. apply elem_of_partition. exact E.
  - intros pk rk Hne. simpl. apply lookup_delete_all_other. exact Hne.
Qed.

(** [get_keys] returns the keys under which the table holds an item. *)
Lemma get_keys_spec st :
  exists keys,
    get_keys st = (Ok keys, sent st Scan)
    /\ forall pk, pk ∈ keys <-> exists rk msg, table st !! (pk, rk) = Some msg.
Proof.
  eexists. split; [reflexivity|].
  intros pk. rewrite elem_of_list_to_set, list_elem_of_fmap. split.
  - intros ([[p r] m] & -> & Hin). simpl.
    apply elem_of_map_to_list in Hin. eauto.
  - intros (rk & msg & Hlook). exists ((pk, rk), msg). split; [reflexivity|].
    apply elem_of_map_to_list. exact Hlook.
Qed.

(** *** More messages than ten digits number *)

Lemma rows_lookup (msgs : list val) : forall start (k : nat),
  rows start msgs !! k
  = (fun s => (_to_row_key (start + Z.of_nat k), s)) <$> (msgs !! k).
Proof.
  induction msgs as [|m msgs IH]; intros start k; [reflexivity|].
  destruct k as [|k]; simpl.
  - rewrite Z.add_0_r. reflexivity.
  - rewrite IH. destruct (msgs !! k); simpl; [|reflexivity].
    do 3 f_equal. lia.
Qed.

Lemma rows_app (l1 l2 : list val) : forall start,
  rows start (l1 ++ l2) = rows start l1 ++ rows (start + Z.of_nat (List.length l1)) l2.
Proof.
  induction l1 as [|m l1 IH]; intros start; simpl.
  - rewrite Z.add_0_r. reflexivity.
  - rewrite IH. do 3 f_equal. lia.
Qed.

Lemma rows_key_length (msgs : list val) : forall start,
  0 <= start -> start + Z.of_nat (List.length msgs) <= 10 ^ 10 ->
  Forall (fun r => String.length (fst r) = 10%nat) (rows start msgs).
Proof.
  induction msgs as [|m msgs IH]; intros start H0 Hlen; simpl; constructor.
  - simpl. apply row_key_length. simpl List.length in Hlen. lia.
  - apply IH; simpl List.length in Hlen; lia.
Qed.

(** The row keys of [10^10 + 1] messages are still pairwise distinct:
    the last one has eleven characters. *)
Lemma rows_NoDup_overflow (msgs : list val) :
  Z.of_nat (List.length msgs) = 10 ^ 10 + 1 ->
  NoDup (map fst (rows 0 msgs)).
Proof.
  intros Hlen.
  assert (Hne : msgs <> []) by (intros ->; simpl in Hlen; lia).
  destruct (exists_last Hne) as (front & last & ->).
  rewrite length_app in Hlen. simpl in Hlen.
  assert (Hfront : Z.of_nat (List.length front) = 10 ^ 10) by lia.
  rewrite rows_app, map_app. simpl. rewrite Hfront.
  apply NoDup_app. split; [apply rows_NoDup; lia|]. split.
  - intros rk Hin Hlast. apply list_elem_of_singleton in Hlast. subst rk.
    apply list_elem_of_fmap in Hin as (r & Hr & Hin).
    pose proof (rows_key_length front 0 ltac:(lia) ltac:(lia)) as Hten.
    rewrite Forall_forall in Hten. specialize (Hten r Hin).
    rewrite <- Hr in Hten. vm_compute in Hten. discriminate Hten.
  - apply NoDup_singleton.
Qed.

Lemma StronglySorted_lookup {A : Type} (R : relation A) (l : list A) :
  StronglySorted R l ->
  forall (i j : nat) x y, l !! i = Some x -> l !! j = Some y -> (i < j)%nat -> R x y.
Proof.
  induction 1 as [|a l _ IH Hall]; intros i j x y Hi Hj Hij; [discriminate Hi|].
  destruct j as [|j]; [lia|]. simpl in Hj.
  destruct i as [|i]; simpl in Hi.
  - injection Hi as <-. rewrite List.Forall_forall in Hall.
    apply Hall. apply list_elem_of_In. eapply list_elem_of_lookup_2. exact Hj.
  - apply (IH i j); [assumption..|lia].
Qed.

Lemma numbered_codec (n : nat) :
  Forall (fun m => exists s, serialize (VDict m) = Ok s /\ deserialize s = Ok (VDict m))
         (numbered_messages n).
Proof.
  apply List.Forall_forall. intros m Hin.
  apply in_map_iff in Hin as (i & <- & _).
  apply codec_roundtrip. unfold numbered.
  simpl. rewrite ?andb_true_r. apply Z.leb_le. lia.
Qed.

Lemma numbered_lookup (n k : nat) m :
  numbered_messages n !! k = Some m -> m = numbered k.
Proof.
  unfold numbered_messages. intros H.
  apply list_lookup_fmap_Some in H as (i & -> & Hi).
  apply lookup_seq in Hi as [-> _]. reflexivity.
Qed.

Lemma numbered_inj (i j : nat) : numbered i = numbered j -> i = j.
Proof. unfold numbered. intros [= H]. lia. Qed.

(** With [S kB] numbered messages, where [kA < kB] and the row key of
    [kA] is not below the row key of [kB], the history read after
    [set_messages] is not the list that was set. *)
Lemma order_lost key st (kA kB : nat) :
  (kA < kB)%nat ->
  Z.of_nat kB = 10 ^ 10 ->
  String.leb (_to_row_key (Z.of_nat kA)) (_to_row_key (Z.of_nat kB)) = false ->
  fst (get_messages key (snd (set_messages key (numbered_messages (S kB)) st)))
  <> Ok (numbered_messages (S kB)).
Proof.
  intros HAB HB Hkeys Hget.
  set (messages := numbered_messages (S kB)) in *.
  destruct (Forall_exists_Forall2 _ _ (numbered_codec (S kB))) as (msgs & Hcodec).
  fold messages in Hcodec.
  assert (Hser : Forall2 (fun m s => serialize (VDict m) = Ok s) messages msgs).
  { eapply Forall2_impl; [exact Hcodec|]. intros m s [H _]. exact H. }
  assert (Hlen : List.length msgs = S kB).
  { apply Forall2_length in Hser. rewrite <- Hser. unfold messages, numbered_messages.
    rewrite length_map, length_seq. reflexivity. }
  assert (Hnd : NoDup (map fst (rows 0 msgs))).
  { apply rows_NoDup_overflow. rewrite Hlen. lia. }
  destruct (set_messages_spec key messages msgs st Hser Hnd) as (st1 & Hset & Hrows).
  rewrite Hset in Hget. simpl snd in Hget.
  rewrite get_messages_spec in Hget. simpl fst in Hget.
  set (sorted := merge_sort rowkey_le (partition key (table st1))) in *.
  assert (Hperm : sorted ≡ₚ rows 0 msgs) by (apply query_permutation; assumption).
  assert (Hsorted : StronglySorted rowkey_le sorted).
  { apply StronglySorted_merge_sort; apply _. }
  apply mapM_Forall2 in Hget.
  (* where a row of the table sits in the sorted response *)
  assert (Hpos : forall k : nat, (k < S kB)%nat ->
             exists s, sorted !! k = Some (_to_row_key (Z.of_nat k), s)).
  { intros k Hk.
    destruct (lookup_lt_is_Some_2 messages k) as (m & Hm).
    { unfold messages, numbered_messages. rewrite length_map, length_seq. exact Hk. }
    pose proof (numbered_lookup _ _ _ Hm) as ->.
    destruct (Forall2_lookup_l _ _ _ _ _ Hcodec Hm) as (s & Hs & _ & Hde).
    assert (Hrow : (_to_row_key (Z.of_nat k), s) ∈ sorted).
    { rewrite Hperm. apply (list_elem_of_lookup_2 _ k).
      rewrite rows_lookup, Hs. reflexivity. }
    apply list_elem_of_lookup_1 in Hrow as (i & Hi).
    destruct (Forall2_lookup_l _ _ _ _ _ Hget Hi) as (m' & Hm' & Hdec).
    simpl in Hdec. rewrite Hde in Hdec. simpl in Hdec. injection Hdec as <-.
    apply numbered_lookup in Hm'. apply numbered_inj in Hm'. subst i.
    exists s. exact Hi. }
  destruct (Hpos kA ltac:(lia)) as (sA & HA).
  destruct (Hpos kB ltac:(lia)) as (sB & HB').
  pose proof (StronglySorted_lookup rowkey_le sorted Hsorted kA kB _ _ HA HB' HAB) as Hle.
  unfold rowkey_le in Hle. simpl in Hle. congruence.
Qed.

(** C7 as stated fails: of [10^10 + 1] messages the last is written
    under a row key of eleven digits, which sorts before the row key of
    the message numbered [2 * 10^9], so [get_messages] does not return
    the messages in the order in which [set_messages] received them. *)
Lemma set_then_get_order_lost :
  fst (get_messages "conv1"
         (snd (set_messages "conv1"
                 (numbered_messages (S (Z.to_nat 10000000000))) empty_store)))
  <> Ok (numbered_messages (S (Z.to_nat 10000000000))).
Proof.
  apply (order_lost "conv1" empty_store (Z.to_nat 2000000000) (Z.to_nat 10000000000)).
  - lia.
  - rewrite Z2Nat.id by lia. reflexivity.
  - rewrite !Z2Nat.id by lia. vm_compute. reflexivity.
Qed.

End ChatStore.

(** * Further properties *)

(** ** Row keys of any index *)

Section RowKeysRead.

Lemma all_digits_zeros k s : Py.all_digits (Py.zeros k +:+ s) = Py.all_digits s.
Proof.
  induction k as [|k IH]; [reflexivity|].
  change (Py.zeros (S k) +:+ s) with (String "0" (Py.zeros k +:+ s)).
  change (Py.all_digits (String "0" (Py.zeros k +:+ s)))
    with (Py.is_digit "0" && Py.all_digits (Py.zeros k +:+ s)).
  rewrite IH. reflexivity.
Qed.

Lemma int_digits_zeros k s : Py.int_digits 0 (Py.zeros k +:+ s) = Py.int_digits 0 s.
Proof.
  induction k as [|k IH]; [reflexivity|].
  change (Py.zeros (S k) +:+ s) with (String "0" (Py.zeros k +:+ s)).
  change (Py.int_digits 0 (String "0" (Py.zeros k +:+ s)))
    with (Py.int_digits 0 (Py.zeros k +:+ s)).
  exact IH.
Qed.


(** The zero-padded text of a non-negative number: digits only, at least
    one of them, and read back as the number. *)
Lemma zfill_digits w n :
  0 <= n ->
  Py.all_digits (Py.zfill w (Py.str_nonneg n)) = true
  /\ Py.int_digits 0 (Py.zfill w (Py.str_nonneg n)) = n
  /\ exists c rest, Py.zfill w (Py.str_nonneg n) = String c rest /\ Py.is_digit c = true.
Proof.
  intros Hn. destruct (str_nonneg_fixed n Hn) as (k & Hk & Hlt & Heq).
  unfold Py.zfill. rewrite Heq.
  assert (Hall : Py.all_digits
                   (Py.zeros (w - String.length (Py.fixed_digits k n EmptyString))
                    +:+ Py.fixed_digits k n EmptyString) = true).
  { rewrite all_digits_zeros. apply all_digits_fixed. }
  split; [exact Hall|]. split.
  - rewrite int_digits_zeros, int_digits_fixed by lia. reflexivity.
  - pose proof (fixed_digits_length k n EmptyString) as Hlen.
    destruct (Py.zeros _ +:+ Py.fixed_digits k n EmptyString) as [|c rest] eqn:E.
    + destruct (Py.zeros (w - String.length (Py.fixed_digits k n EmptyString)));
        [|discriminate E].
      rewrite append_nil_l in E. rewrite E in Hlen. simpl in Hlen. lia.
    + exists c, rest. split; [reflexivity|].
      change (Py.is_digit c && Py.all_digits rest = true) in Hall.
      apply andb_true_iff in Hall. tauto.
Qed.

Lemma row_key_nonneg idx :
  0 <= idx ->
  Py.isdigit (_to_row_key idx) = true /\ Py.int_of_str (_to_row_key idx) = idx.
Proof.
  intros Hidx. unfold _to_row_key, Py.format_010.
  destruct (idx <? 0) eqn:E; [apply Z.ltb_lt in E; lia|].
  destruct (zfill_digits 10 idx Hidx) as (Hall & Hint & c & rest & Hc & _).
  split; [|exact Hint].
  unfold Py.isdigit. rewrite Hc in Hall |- *. exact Hall.
Qed.

Lemma row_key_negative idx :
  idx < 0 ->
  exists rest, _to_row_key idx = String "-" rest /\ Py.int_digits 0 rest = - idx.
Proof.
  intros Hidx. unfold _to_row_key, Py.format_010.
  destruct (idx <? 0) eqn:E; [|apply Z.ltb_ge in E; lia].
  eexists. split; [reflexivity|].
  apply (zfill_digits 9 (- idx)). lia.
Qed.

Lemma row_key_first_digit idx :
  0 <= idx ->
  exists c rest, _to_row_key idx = String c rest /\ Py.is_digit c = true.
Proof.
  intros Hidx. unfold _to_row_key, Py.format_010.
  destruct (idx <? 0) eqn:E; [apply Z.ltb_lt in E; lia|].
  destruct (zfill_digits 10 idx Hidx) as (_ & _ & H). exact H.
Qed.

(** No two indices share a row key. *)
Lemma row_key_inj (i j : Z) : _to_row_key i = _to_row_key j -> i = j.
Proof.
  intros Heq.
  destruct (Z.lt_ge_cases i 0) as [Hi|Hi], (Z.lt_ge_cases j 0) as [Hj|Hj].
  - destruct (row_key_negative i Hi) as (ri & Hri & Hvi).
    destruct (row_key_negative j Hj) as (rj & Hrj & Hvj).
    rewrite Hri, Hrj in Heq. injection Heq as Heq. rewrite Heq in Hvi. lia.
  - destruct (row_key_negative i Hi) as (ri & Hri & _).
    destruct (row_key_first_digit j Hj) as (c & rest & Hc & Hd).
    rewrite Hri, Hc in Heq. injection Heq as <- _. discriminate Hd.
  - destruct (row_key_negative j Hj) as (rj & Hrj & _).
    destruct (row_key_first_digit i Hi) as (c & rest & Hc & Hd).
    rewrite Hrj, Hc in Heq. injection Heq as -> _. discriminate Hd.
  - rewrite <- (proj2 (row_key_nonneg i Hi)), <- (proj2 (row_key_nonneg j Hj)), Heq.
    reflexivity.
Qed.




End RowKeysRead.

(** ** The codec on every dictionary *)

Section CodecShape.

Lemma mapM_fails {A B : Type} (f : A -> result B) (l : list A) a e :
  In a l -> f a = Raise e -> exists e', mapM f l = Raise e'.
Proof.
  induction l as [|x l IH]; intros Hin Ha; [destruct Hin|].
  simpl. destruct (f x) as [b|e0] eqn:Hx; simpl; [|eauto].
  destruct Hin as [->|Hin]; [congruence|].
  destruct (IH Hin Ha) as (e' & He'). rewrite He'. simpl. eauto.
Qed.

Lemma dict_loop_fails field (items : dict) key value e :
  In (key, value) items -> field key value = Raise e ->
  forall acc : dict, exists e', dict_loop field items acc = Raise e'.
Proof.
  induction items as [|[k v] items IH]; intros Hin Hf acc; [destruct Hin|].
  simpl. destruct (field k v) as [c|e0] eqn:Hkv; simpl; [|eauto].
  destruct Hin as [[= -> ->]|Hin]; [congruence|].
  apply IH; assumption.
Qed.

Lemma dict_loop_keys field (data out : dict) :
  distinct (map fst data) = true ->
  dict_loop field data [] = Ok out ->
  map fst out = map fst data.
Proof.
  intros Hd Hloop.
  rewrite dict_loop_distinct in Hloop by exact Hd.
  apply bind_ok in Hloop as (conv & Hconv & [= <-]).
  apply mapM_Forall2 in Hconv. simpl.
  induction Hconv as [|[k v] [k' c] data conv Hkc _ IH]; [reflexivity|].
  simpl in Hkc. apply bind_ok in Hkc as (c' & _ & [= <- <-]).
  simpl. f_equal. apply IH. simpl in Hd.
  apply andb_true_iff in Hd. tauto.
Qed.

Lemma dict_set_Forall (P : string * val -> Prop) (d : dict) key v :
  (forall k, P (k, v)) -> Forall P d -> Forall P (dict_set d key v).
Proof.
  intros Hv. induction 1 as [|[k w] d Hkw Hd IH]; simpl.
  - constructor; [apply Hv|constructor].
  - destruct (String.eqb k key); constructor;
      [apply Hv|exact Hd|exact Hkw|exact IH].
Qed.

(** What holds of every converted field holds of every value of the
    dictionary the loop returns. *)
Lemma dict_loop_values field (P : val -> Prop) (items : dict) :
  (forall k v c, field k v = Ok c -> P c) ->
  forall acc out : dict,
    Forall (fun kv => P (snd kv)) acc ->
    dict_loop field items acc = Ok out ->
    Forall (fun kv => P (snd kv)) out.
Proof.
  intros Hfield.
  induction items as [|[k v] items IH]; intros acc out Hacc Hloop; simpl in Hloop.
  - injection Hloop as <-. exact Hacc.
  - apply bind_ok in Hloop as (c & Hc & Hloop).
    apply (IH (dict_set acc k c) out); [|exact Hloop].
    apply dict_set_Forall; [|exact Hacc].
    intros k'. simpl. eapply Hfield. exact Hc.
Qed.

Lemma serialize_field_tagged key v c :
  serialize_field serialize key v = Ok c -> tagged c.
Proof.
  unfold tagged.
  destruct v as [s|n|x|b| |items|elems|cls]; intros H.
  - injection H as <-. exists "S", (VStr s). simpl. auto.
  - injection H as <-. eexists "N", _. simpl. auto.
  - injection H as <-. eexists "N", _. simpl. auto.
  - injection H as <-. eexists "N", _. simpl. auto.
  - injection H as <-. eexists "NULL", _. simpl. split; [reflexivity|].
    do 4 right. left. reflexivity.
  - rewrite serialize_field_dict in H.
    apply bind_ok in H as (m & _ & [= <-]). eexists "M", _. simpl. auto.
  - rewrite serialize_field_list in H.
    apply bind_ok in H as (l & _ & [= <-]). eexists "L", _. simpl.
    split; [reflexivity|]. do 3 right. left. reflexivity.
  - discriminate H.
Qed.

(** X2. Whatever [serialize] returns for a dictionary is a dictionary
    each of whose values is a dictionary of exactly one tag, one of [S],
    [N], [M], [L] and [NULL]; the tag [BOOL] is never written; and on
    distinct keys the keys come out as they went in, in their order. *)
Theorem serialize_shape (data : dict) (s : val) :
  serialize (VDict data) = Ok s ->
  exists out,
    s = VDict out
    /\ Forall (fun kv => tagged (snd kv)) out
    /\ (forall key payload, ~ In (key, VDict [("BOOL", payload)]) out)
    /\ (distinct (map fst data) = true -> map fst out = map fst data).
Proof.
  intros Hser. rewrite serialize_unfold in Hser.
  apply bind_ok in Hser as (out & Hloop & [= <-]).
  assert (Hall : Forall (fun kv => tagged (snd kv)) out).
  { apply (dict_loop_values (serialize_field serialize) tagged data) with (acc := []).
    - intros k v c Hc. eapply serialize_field_tagged. exact Hc.
    - constructor.
    - exact Hloop. }
  exists out. split; [reflexivity|]. split; [exact Hall|]. split.
  - intros key payload Hin. rewrite List.Forall_forall in Hall.
    destruct (Hall _ Hin) as (tag & p & Heq & Htag). simpl in Heq.
    injection Heq as <- _. simpl in Htag.
    destruct Htag as [H|[H|[H|[H|[H|[]]]]]]; discriminate H.
  - intros Hd. eapply dict_loop_keys; [exact Hd|exact Hloop].
Qed.

Lemma serialize_shape_witness :
  exists out,
    VDict [("role", VDict [("S", VStr "user")]); ("done", VDict [("N", VStr "True")])]
    = VDict out
    /\ Forall (fun kv => tagged (snd kv)) out
    /\ (forall key payload, ~ In (key, VDict [("BOOL", payload)]) out)
    /\ (distinct (map fst [("role", VStr "user"); ("done", VBool true)]) = true ->
        map fst out = map fst [("role", VStr "user"); ("done", VBool true)]).
Proof.
  apply (serialize_shape [("role", VStr "user"); ("done", VBool true)]).
  reflexivity.
Defined.

(** An offending field makes [serialize] raise at the dictionary and at
    every field that holds it. *)
Lemma offends_fails (v : val) key cls :
  offends v key cls ->
  forall k, exists e, serialize_field serialize k v = Raise e.
Proof.
  induction 1 as [items key cls Hin|items k0 v key cls Hin _ IH|elems d key cls Hin _ IH];
    intros k.
  - rewrite serialize_field_dict, serialize_unfold.
    destruct (serialize_items_unsupported items key cls [] Hin) as (e & He).
    rewrite He. simpl. eauto.
  - rewrite serialize_field_dict, serialize_unfold.
    destruct (IH k0) as (e & He).
    destruct (dict_loop_fails _ items k0 v e Hin He []) as (e' & He').
    unfold serialize_items. rewrite He'. simpl. eauto.
  - rewrite serialize_field_list.
    destruct (IH k) as (e & He). rewrite serialize_field_dict in He.
    destruct (serialize (VDict d)) as [m|e0] eqn:Hd; [discriminate He|].
    destruct (mapM_fails (fun v => if isinstance_dict v then serialize v else Ok v)
                elems (VDict d) e0 Hin Hd) as (e' & He').
    rewrite He'. simpl. eauto.
Qed.

(** X3. [serialize] raises on a dictionary exactly when the dictionary
    holds, at some depth, a field of an unsupported class; what it raises
    is then the error of the source that names such a field; and it
    returns a dictionary exactly when there is no such field. *)
Theorem serialize_raises_iff_offends (data : dict) :
  ((exists e, serialize (VDict data) = Raise e)
   <-> (exists key cls, offends (VDict data) key cls))
  /\ (forall e, serialize (VDict data) = Raise e ->
        exists key cls,
          offends (VDict data) key cls /\ e = unsupported_type_error (VObject cls) key)
  /\ ((exists out, serialize (VDict data) = Ok (VDict out))
      <-> ~ (exists key cls, offends (VDict data) key cls)).
Proof.
  assert (Hraise : forall e, serialize (VDict data) = Raise e ->
            exists key cls,
              offends (VDict data) key cls /\ e = unsupported_type_error (VObject cls) key).
  { intros e He.
    assert (Hf : serialize_field serialize EmptyString (VDict data) = Raise e).
    { rewrite serialize_field_dict, He. reflexivity. }
    apply serialize_field_raise in Hf as (key & cls & -> & [[Hv _]|Hoff]);
      [discriminate Hv|].
    exists key, cls. auto. }
  assert (Hoff : (exists key cls, offends (VDict data) key cls) ->
                 exists e, serialize (VDict data) = Raise e).
  { intros (key & cls & Hoff).
    destruct (offends_fails _ _ _ Hoff EmptyString) as (e & He).
    rewrite serialize_field_dict in He.
    destruct (serialize (VDict data)) as [m|e0]; [discriminate He|eauto]. }
  split; [|split].
  - split; [|exact Hoff].
    intros (e & He). destruct (Hraise e He) as (key & cls & H & _). eauto.
  - exact Hraise.
  - split.
    + intros (out & Hout) H. destruct (Hoff H) as (e & He). congruence.
    + intros Hnone. destruct (serialize (VDict data)) as [s|e] eqn:Hs.
      * destruct (serialize_dict_result _ _ Hs) as (out & ->). eauto.
      * exfalso. apply Hnone. destruct (Hraise e eq_refl) as (key & cls & H & _). eauto.
Qed.

(** X4. A dictionary of strings, non-negative integers, floats whose text
    reads back, [None], nested dictionaries with distinct keys, and lists
    comes back from the codec as it was; what is stored in between keeps
    its keys and their order. *)
Theorem codec_round_trip (data : dict) :
  stable (VDict data) = true ->
  exists out,
    serialize (VDict data) = Ok (VDict out)
    /\ deserialize (VDict out) = Ok (VDict data)
    /\ map fst out = map fst data.
Proof.
  intros Hst.
  destruct (codec_roundtrip data Hst) as (s & Hs & Hde).
  destruct (serialize_dict_result _ _ Hs) as (out & ->).
  exists out. split; [exact Hs|]. split; [exact Hde|].
  rewrite serialize_unfold in Hs.
  apply bind_ok in Hs as (out' & Hloop & [= <-]).
  apply (dict_loop_keys (serialize_field serialize)); [|exact Hloop].
  simpl in Hst. apply andb_true_iff in Hst. tauto.
Qed.

Lemma codec_round_trip_witness :
  exists out,
    serialize (VDict msgB) = Ok (VDict out)
    /\ deserialize (VDict out) = Ok (VDict msgB)
    /\ map fst out = map fst msgB.
Proof. apply (codec_round_trip msgB). reflexivity. Defined.

Lemma isdigit_negative n : n < 0 -> Py.isdigit (Py.str_int n) = false.
Proof.
  intros Hn. unfold Py.str_int.
  destruct (n <? 0) eqn:E; [reflexivity|apply Z.ltb_ge in E; lia].
Qed.

(** X5. No negative integer comes back from the codec as an integer: its
    text starts with the minus sign and fails [isdigit], so [deserialize]
    hands it to [float]. *)
Theorem negative_int_read_as_float (key : string) (n : Z) :
  n < 0 ->
  Py.isdigit (Py.str_int n) = false
  /\ serialize (VDict [(key, VInt n)])
     = Ok (VDict [(key, VDict [("N", VStr (Py.str_int n))])])
  /\ deserialize (VDict [(key, VDict [("N", VStr (Py.str_int n))])])
     = match Py.float_of_str (Py.str_int n) with
       | Some x => Ok (VDict [(key, VFloat x)])
       | None =>
           Raise (ValueError ("could not convert string to float: '"
                              +:+ Py.str_int n +:+ "'"))
       end
  /\ deserialize (VDict [(key, VDict [("N", VStr (Py.str_int n))])])
     <> Ok (VDict [(key, VInt n)]).
Proof.
  intros Hn. pose proof (isdigit_negative n Hn) as Hd.
  assert (Hde : deserialize (VDict [(key, VDict [("N", VStr (Py.str_int n))])])
                = match Py.float_of_str (Py.str_int n) with
                  | Some x => Ok (VDict [(key, VFloat x)])
                  | None =>
                      Raise (ValueError ("could not convert string to float: '"
                                         +:+ Py.str_int n +:+ "'"))
                  end).
  { rewrite deserialize_number, Hd. reflexivity. }
  split; [exact Hd|]. split; [reflexivity|]. split; [exact Hde|].
  rewrite Hde. destruct (Py.float_of_str (Py.str_int n)); intros H; discriminate H.
Qed.

Lemma negative_int_read_as_float_witness :
  Py.isdigit (Py.str_int (-42)) = false
  /\ serialize (VDict [("n", VInt (-42))])
     = Ok (VDict [("n", VDict [("N", VStr (Py.str_int (-42)))])])
  /\ deserialize (VDict [("n", VDict [("N", VStr (Py.str_int (-42)))])])
     = match Py.float_of_str (Py.str_int (-42)) with
       | Some x => Ok (VDict [("n", VFloat x)])
       | None =>
           Raise (ValueError ("could not convert string to float: '"
                              +:+ Py.str_int (-42) +:+ "'"))
       end
  /\ deserialize (VDict [("n", VDict [("N", VStr (Py.str_int (-42)))])])
     <> Ok (VDict [("n", VInt (-42))]).
Proof. apply (negative_int_read_as_float "n" (-42)). lia. Defined.

Lemma all_digits_append a b :
  Py.all_digits (a +:+ b) = Py.all_digits a && Py.all_digits b.
Proof.
  induction a as [|c a IH]; [reflexivity|].
  rewrite append_cons_l.
  change (Py.all_digits (String c (a +:+ b)))
    with (Py.is_digit c && Py.all_digits (a +:+ b)).
  rewrite IH. apply andb_assoc.
Qed.

Lemma all_digits_isdigit t : Py.all_digits t = false -> Py.isdigit t = false.
Proof. destruct t; [reflexivity|auto]. Qed.

(** Every layout of [float_layout] holds a point or the letter of the
    exponent. *)
Lemma float_layout_all_digits ds point :
  Py.all_digits (Py.float_layout ds point) = false.
Proof.
  unfold Py.float_layout.
  destruct ((point <=? -4) || (16 <? point)); [|destruct (point <=? 0);
    [|destruct (Z.of_nat (String.length ds) <=? point)]];
    rewrite !all_digits_append.
  - change (Py.all_digits (String "e" ?s)) with (false && Py.all_digits s).
    rewrite !andb_false_r. reflexivity.
  - reflexivity.
  - change (Py.all_digits ".0") with false. rewrite !andb_false_r. reflexivity.
  - change (Py.all_digits (String "." ?s)) with (false && Py.all_digits s).
    rewrite !andb_false_r. reflexivity.
Qed.

Lemma isdigit_str_float x : Py.isdigit (Py.str_float x) = false.
Proof.
  destruct x as [s|s| |s m e]; try (destruct s; reflexivity); [reflexivity|].
  unfold Py.str_float. destruct (Py.float_digits m e) as [ds point].
  apply all_digits_isdigit. rewrite all_digits_append, float_layout_all_digits.
  apply andb_false_r.
Qed.

(** X6. No float comes back from the codec as an integer: the text that
    [str] gives a float always holds a point, the letter of an exponent,
    or is one of [inf] and [nan], so it fails [isdigit] and [deserialize]
    hands it to [float]. *)
Theorem float_never_read_as_int (key : string) (x : spec_float) :
  Py.isdigit (Py.str_float x) = false
  /\ serialize (VDict [(key, VFloat x)])
     = Ok (VDict [(key, VDict [("N", VStr (Py.str_float x))])])
  /\ deserialize (VDict [(key, VDict [("N", VStr (Py.str_float x))])])
     = match Py.float_of_str (Py.str_float x) with
       | Some y => Ok (VDict [(key, VFloat y)])
       | None =>
           Raise (ValueError ("could not convert string to float: '"
                              +:+ Py.str_float x +:+ "'"))
       end
  /\ forall n : Z,
       deserialize (VDict [(key, VDict [("N", VStr (Py.str_float x))])])
       <> Ok (VDict [(key, VInt n)]).
Proof.
  pose proof (isdigit_str_float x) as Hd.
  assert (Hde : deserialize (VDict [(key, VDict [("N", VStr (Py.str_float x))])])
                = match Py.float_of_str (Py.str_float x) with
                  | Some y => Ok (VDict [(key, VFloat y)])
                  | None =>
                      Raise (ValueError ("could not convert string to float: '"
                                         +:+ Py.str_float x +:+ "'"))
                  end).
  { rewrite deserialize_number, Hd. reflexivity. }
  split; [exact Hd|]. split; [reflexivity|]. split; [exact Hde|].
  intros n. rewrite Hde.
  destruct (Py.float_of_str (Py.str_float x)); intros H; discriminate H.
Qed.

(** The text stored for a boolean is no number: the dictionary that
    holds it is refused by [deserialize]. *)
Lemma bool_field_raises (data : dict) (key : string) (b : bool) (s : val) :
  distinct (map fst data) = true ->
  In (key, VBool b) data ->
  serialize (VDict data) = Ok s ->
  exists e, deserialize s = Raise e.
Proof.
  intros Hd Hin Hs.
  destruct (serialize_dict_result _ _ Hs) as (out & ->).
  pose proof (serialize_bool_field data out key b Hd Hin Hs) as Hout.
  assert (Hf : exists e, deserialize_field deserialize key
                           (VDict [("N", VStr (Py.str_bool b))]) = Raise e).
  { rewrite deserialize_field_number. destruct b; vm_compute; eauto. }
  destruct Hf as (e & Hf).
  destruct (dict_loop_fails _ out key _ e Hout Hf []) as (e' & He').
  rewrite deserialize_unfold. unfold deserialize_items. rewrite He'. simpl. eauto.
Qed.

(** X7. A dictionary with a boolean among its fields is serialized, if
    at all, into a dictionary that [deserialize] refuses: the boolean is
    stored under the tag [N] as the text [True] or [False], which is no
    number. *)
Theorem bool_field_unreadable (data : dict) (key : string) (b : bool) (s : val) :
  distinct (map fst data) = true ->
  In (key, VBool b) data ->
  serialize (VDict data) = Ok s ->
  exists out e,
    s = VDict out
    /\ In (key, VDict [("N", VStr (Py.str_bool b))]) out
    /\ deserialize s = Raise e.
Proof.
  intros Hd Hin Hs.
  destruct (bool_field_raises data key b s Hd Hin Hs) as (e & He).
  destruct (serialize_dict_result _ _ Hs) as (out & ->).
  exists out, e. split; [reflexivity|]. split; [|exact He].
  apply (serialize_bool_field data out key b Hd Hin Hs).
Qed.

Lemma bool_field_unreadable_witness :
  exists out e,
    VDict [("role", VDict [("S", VStr "user")]); ("done", VDict [("N", VStr "False")])]
    = VDict out
    /\ In ("done", VDict [("N", VStr (Py.str_bool false))]) out
    /\ deserialize (VDict [("role", VDict [("S", VStr "user")]);
                           ("done", VDict [("N", VStr "False")])]) = Raise e.
Proof.
  apply (bool_field_unreadable [("role", VStr "user"); ("done", VBool false)] "done" false).
  - reflexivity.
  - right. left. reflexivity.
  - reflexivity.
Defined.

(** X8. A field whose value is a dictionary with none of the six tags
    makes [deserialize] raise the error of the source that names the key
    of that field, once the fields before it are decoded. *)
Theorem deserialize_unknown_tag (pre post : dict) (key : string) (value : dict) (out : val) :
  Forall (fun tag => dict_has value tag = false) ["S"; "N"; "BOOL"; "M"; "L"; "NULL"] ->
  deserialize (VDict pre) = Ok out ->
  deserialize (VDict (pre ++ (key, VDict value) :: post))
  = Raise (unsupported_tag_error key).
Proof.
  intros Htags Hpre.
  rewrite deserialize_unfold in Hpre |- *.
  apply bind_ok in Hpre as (mid & Hmid & _).
  unfold deserialize_items in *. rewrite dict_loop_app, Hmid.
  inversion Htags as [|? ? HS Ht1]; subst.
  inversion Ht1 as [|? ? HN Ht2]; subst.
  inversion Ht2 as [|? ? HB Ht3]; subst.
  inversion Ht3 as [|? ? HM Ht4]; subst.
  inversion Ht4 as [|? ? HL Ht5]; subst.
  inversion Ht5 as [|? ? HZ _]; subst.
  simpl. unfold deserialize_field. simpl.
  rewrite HS. simpl. rewrite HN. simpl. rewrite HB. simpl.
  rewrite HM. simpl. rewrite HL. simpl. rewrite HZ. reflexivity.
Qed.

Lemma deserialize_unknown_tag_witness :
  deserialize (VDict ([("role", VDict [("S", VStr "user")])]
                      ++ ("content", VDict [("SS", VList [VStr "a"])]) :: []))
  = Raise (unsupported_tag_error "content").
Proof.
  apply (deserialize_unknown_tag [("role", VDict [("S", VStr "user")])] []
           "content" [("SS", VList [VStr "a"])] (VDict [("role", VStr "user")])).
  - repeat constructor.
  - reflexivity.
Defined.

End CodecShape.

(** ** Histories in the table *)

Section Histories.

Implicit Types (st : store) (key pk rk : string) (t : gmap (string * string) val).
Implicit Types (rs : list (string * val)).

Local Arguments serialize : simpl never.
Local Arguments deserialize : simpl never.

Lemma increasing_sorted rs :
  StronglySorted rowkey_lt rs -> Sorted rowkey_le rs /\ NoDup (map fst rs).
Proof.
  induction 1 as [|r rs _ [IHs IHn] Hall]; simpl.
  - split; constructor.
  - split.
    + constructor; [exact IHs|].
      destruct rs as [|r' rs]; constructor.
      inversion Hall; subst. apply string_ltb_leb. assumption.
    + constructor; [|exact IHn].
      intros Hin. apply list_elem_of_fmap in Hin as (r' & Hr' & Hin).
      rewrite Forall_forall in Hall.
      apply (string_ltb_neq (fst r) (fst r')); [apply Hall; exact Hin|exact Hr'].
Qed.

Lemma rows_increasing (msgs : list val) : forall start,
  0 <= start -> start + Z.of_nat (List.length msgs) <= 10 ^ 10 ->
  StronglySorted rowkey_lt (rows start msgs).
Proof.
  induction msgs as [|m msgs IH]; intros start H0 Hlen; simpl; constructor.
  - apply IH; simpl List.length in Hlen; lia.
  - apply (rows_above msgs (start + 1) start); simpl List.length in Hlen; lia.
Qed.

Lemma elem_of_rows (msgs : list val) start rk v :
  (rk, v) ∈ rows start msgs
  <-> exists k : nat, msgs !! k = Some v /\ rk = _to_row_key (start + Z.of_nat k).
Proof.
  rewrite list_elem_of_lookup. split.
  - intros (k & Hk). rewrite rows_lookup in Hk.
    destruct (msgs !! k) as [s|] eqn:E; [|discriminate Hk].
    injection Hk as <- <-. eauto.
  - intros (k & Hk & ->). exists k. rewrite rows_lookup, Hk. reflexivity.
Qed.

Lemma rows_decode (messages : list dict) (msgs : list val) :
  Forall2 (fun m s => deserialize s = Ok (VDict m)) messages msgs ->
  forall start,
    Forall2 (fun m r => deserialize (snd r) = Ok (VDict m)) messages (rows start msgs).
Proof.
  induction 1 as [|m s messages msgs Hs _ IH]; intros start; simpl; constructor.
  - exact Hs.
  - apply IH.
Qed.

Lemma decode_ok item (m : dict) :
  decode item = Ok m <-> deserialize (snd item) = Ok (VDict m).
Proof.
  unfold decode. split.
  - intros H. apply bind_ok in H as (d & Hd & Hp).
    destruct d; try discriminate Hp. injection Hp as ->. exact Hd.
  - intros ->. reflexivity.
Qed.

(** A partition that holds rows of ascending row keys is read by
    [get_messages] as the messages these rows decode to. *)
Lemma get_messages_rows key st rs (messages : list dict) :
  holds key (table st) rs ->
  StronglySorted rowkey_lt rs ->
  Forall2 (fun m r => deserialize (snd r) = Ok (VDict m)) messages rs ->
  get_messages key st = (Ok messages, sent st (Query key)).
Proof.
  intros Hholds Hinc Hdec.
  destruct (increasing_sorted rs Hinc) as [Hsorted Hnd].
  rewrite get_messages_spec. f_equal.
  rewrite (query_rows key (table st) rs Hsorted Hnd Hholds).
  apply mapM_Forall2. apply Forall2_flip.
  eapply Forall2_impl; [exact Hdec|].
  intros m r Hr. apply (decode_ok r m). exact Hr.
Qed.


Lemma holds_delete key t rs rk :
  holds key t rs -> holds key (delete (key, rk) t) (without rk rs).
Proof.
  intros H rk' v. unfold without.
  rewrite lookup_delete_Some, list_elem_of_filter, (H rk' v). simpl.
  split; intros [Hne Hin]; (split; [congruence|exact Hin]).
Qed.


Lemma without_absent rk rs : rk ∉ map fst rs -> without rk rs = rs.
Proof.
  unfold without. induction rs as [|r rs IH]; intros Hnot; [reflexivity|].
  simpl in Hnot. apply not_elem_of_cons in Hnot as [Hne Hnot].
  rewrite filter_cons_True by congruence. rewrite IH by exact Hnot. reflexivity.
Qed.


(** *** The single calls on a partition that holds known rows *)

Lemma set_messages_rows key (messages : list dict) st :
  Z.of_nat (List.length messages) <= 10 ^ 10 ->
  Forall codec_ok messages ->
  exists msgs st1,
    Forall2 (fun m s => serialize (VDict m) = Ok s) messages msgs
    /\ Forall2 (fun m s => deserialize s = Ok (VDict m)) messages msgs
    /\ set_messages key messages st = (Ok tt, st1)
    /\ holds key (table st1) (rows 0 msgs).
Proof.
  intros Hlen Hcodec.
  apply Forall_exists_Forall2 in Hcodec as (msgs & Hcodec).
  assert (Hser : Forall2 (fun m s => serialize (VDict m) = Ok s) messages msgs).
  { eapply Forall2_impl; [exact Hcodec|]. intros m s [H _]. exact H. }
  assert (Hde : Forall2 (fun m s => deserialize s = Ok (VDict m)) messages msgs).
  { eapply Forall2_impl; [exact Hcodec|]. intros m s [_ H]. exact H. }
  assert (Hnd : NoDup (map fst (rows 0 msgs))).
  { apply rows_NoDup; [lia|]. apply Forall2_length in Hser. lia. }
  destruct (set_messages_spec key messages msgs st Hser Hnd) as (st1 & Hset & Hrows).
  exists msgs, st1. auto.
Qed.



Lemma delete_last_message_rows key st rs (messages : list dict) :
  holds key (table st) rs ->
  StronglySorted rowkey_lt rs ->
  Forall2 (fun m r => deserialize (snd r) = Ok (VDict m)) messages rs ->
  exists st',
    delete_last_message key st = (Ok tt, st')
    /\ holds key (table st')
         (without (_to_row_key (Z.of_nat (List.length messages) - 1)) rs).
Proof.
  intros Hholds Hinc Hdec.
  pose proof (get_messages_rows key st rs messages Hholds Hinc Hdec) as Hget.
  unfold delete_last_message, io_bind. rewrite Hget.
  eexists. split; [reflexivity|]. simpl. apply holds_delete. exact Hholds.
Qed.

(** *** Rows with one row key taken out *)

Lemma rows_keys_from (msgs : list val) start rk :
  rk ∈ map fst (rows start msgs) ->
  exists k : nat, (k < List.length msgs)%nat /\ rk = _to_row_key (start + Z.of_nat k).
Proof.
  intros Hin. apply list_elem_of_fmap in Hin as ([rk' v] & -> & Hin).
  apply elem_of_rows in Hin as (k & Hk & ->).
  exists k. split; [|reflexivity]. apply lookup_lt_Some in Hk. exact Hk.
Qed.

(** Taking out the row key of an index that the rows do not reach leaves
    them all. *)
Lemma without_outside (msgs : list val) start (idx : Z) :
  idx < start \/ start + Z.of_nat (List.length msgs) <= idx ->
  without (_to_row_key idx) (rows start msgs) = rows start msgs.
Proof.
  intros Hout. apply without_absent. intros Hin.
  apply rows_keys_from in Hin as (k & Hk & Heq).
  apply row_key_inj in Heq. lia.
Qed.

(** Taking out the row key of the index at position [k] leaves the rows
    before and after it under their row keys. *)
Lemma without_position (msgs : list val) : forall start (k : nat),
  (k < List.length msgs)%nat ->
  without (_to_row_key (start + Z.of_nat k)) (rows start msgs)
  = rows start (take k msgs) ++ rows (start + Z.of_nat k + 1) (drop (S k) msgs).
Proof.
  induction msgs as [|m msgs IH]; intros start k Hk; [simpl in Hk; lia|].
  destruct k as [|k].
  - rewrite Z.add_0_r. simpl. unfold without at 1.
    rewrite filter_cons_False by (simpl; tauto).
    fold (without (_to_row_key start) (rows (start + 1) msgs)).
    rewrite drop_0. apply without_outside. lia.
  - simpl. unfold without at 1.
    rewrite filter_cons_True.
    + fold (without (_to_row_key (start + Z.of_nat (S k))) (rows (start + 1) msgs)).
      replace (start + Z.of_nat (S k)) with (start + 1 + Z.of_nat k) by lia.
      rewrite IH by (simpl in Hk; lia). reflexivity.
    + simpl. intros Heq. apply row_key_inj in Heq. lia.
Qed.

(** Taking out the row key of the last index. *)
Lemma without_last (msgs : list val) start :
  without (_to_row_key (start + Z.of_nat (List.length msgs) - 1)) (rows start msgs)
  = rows start (take (List.length msgs - 1) msgs).
Proof.
  destruct (decide (msgs = [])) as [->|Hne].
  - reflexivity.
  - assert (Hlen : (0 < List.length msgs)%nat).
    { destruct msgs; [contradiction|simpl; lia]. }
    replace (start + Z.of_nat (List.length msgs) - 1)
      with (start + Z.of_nat (List.length msgs - 1)) by lia.
    rewrite without_position by lia.
    replace (S (List.length msgs - 1)) with (List.length msgs) by lia.
    rewrite drop_all. simpl. apply app_nil_r.
Qed.

End Histories.

(** ** Calls in sequence *)

Section Sequences.

Implicit Types (st : store) (key pk rk : string) (t : gmap (string * string) val).
Implicit Types (rs : list (string * val)).

Local Arguments serialize : simpl never.
Local Arguments deserialize : simpl never.














(** X13. After [set_messages], [delete_last_message] removes the last
    message of the history, and nothing of an empty one. *)
Theorem delete_last_message_removes_last key (messages : list dict) st :
  Z.of_nat (List.length messages) <= 10 ^ 10 ->
  Forall codec_ok messages ->
  exists st1 st2 st3,
    set_messages key messages st = (Ok tt, st1)
    /\ delete_last_message key st1 = (Ok tt, st2)
    /\ get_messages key st2
       = (Ok (take (List.length messages - 1) messages), st3).
Proof.
  intros Hlen Hcodec.
  destruct (set_messages_rows key messages st Hlen Hcodec)
    as (msgs & st1 & Hser & Hde & Hset & Hholds).
  pose proof (Forall2_length _ _ _ Hser) as Hn.
  destruct (delete_last_message_rows key st1 (rows 0 msgs) messages)
    as (st2 & Hdel & Hholds2).
  - exact Hholds.
  - apply rows_increasing; lia.
  - apply rows_decode. exact Hde.
  - rewrite Hn in Hholds2 |- *.
    change (Z.of_nat (List.length msgs) - 1)
      with (0 + Z.of_nat (List.length msgs) - 1) in Hholds2.
    rewrite without_last in Hholds2.
    exists st1, st2, (sent st2 (Query key)).
    split; [exact Hset|]. split; [exact Hdel|].
    apply (get_messages_rows key st2 _ _ Hholds2).
    + apply rows_increasing; [lia|]. rewrite length_take. lia.
    + apply rows_decode. apply Forall2_take. exact Hde.
Qed.

Lemma delete_last_message_removes_last_witness :
  exists st1 st2 st3,
    set_messages "conv1" [msgA; msgB; msgC] empty_store = (Ok tt, st1)
    /\ delete_last_message "conv1" st1 = (Ok tt, st2)
    /\ get_messages "conv1" st2
       = (Ok (take (List.length [msgA; msgB; msgC] - 1) [msgA; msgB; msgC]), st3).
Proof.
  apply (delete_last_message_removes_last "conv1" [msgA; msgB; msgC] empty_store).
  - vm_compute. discriminate.
  - constructor; [codec_ok_evaluates|]. constructor; [codec_ok_evaluates|].
    constructor; [codec_ok_evaluates|]. constructor.
Defined.





End Sequences.

(** ** Failures, and what a call leaves alone *)

Section Failures.

Implicit Types (st : store) (key pk rk : string) (t : gmap (string * string) val).
Implicit Types (rs : list (string * val)).

Local Arguments serialize : simpl never.
Local Arguments deserialize : simpl never.

Lemma set_messages_unfold key (messages : list dict) st :
  set_messages key messages st
  = io_for (enumerate messages) (put_message key)
      (Store (foldl (delete_row key) (table st)
                (merge_sort rowkey_le (partition key (table st))))
             ((requests st ++ [Query key])
              ++ map (fun item => DeleteItem key (fst item))
                   (merge_sort rowkey_le (partition key (table st))))).
Proof.
  unfold set_messages, io_bind at 1. rewrite query_spec.
  unfold io_bind at 1. rewrite delete_all_spec. reflexivity.
Qed.

Lemma put_message_ok key (i : Z) (m : dict) (s : val) st :
  serialize (VDict m) = Ok s ->
  put_message key (i, m) st
  = (Ok tt, Store (<[(key, _to_row_key i) := s]> (table st))
                  (requests st ++ [PutItem key (_to_row_key i) s])).
Proof.
  intros Hs. unfold put_message, io_bind, lift, message_dict. simpl.
  rewrite Hs. reflexivity.
Qed.

Lemma put_message_raise key (i : Z) (m : dict) (e : exn) st :
  serialize (VDict m) = Raise e -> put_message key (i, m) st = (Raise e, st).
Proof.
  intros Hs. unfold put_message, io_bind, lift, message_dict. simpl.
  rewrite Hs. reflexivity.
Qed.

(** The loop of writes stops at the first message that [serialize]
    refuses, with the messages before it written. *)
Lemma put_loop_raise key (before : list dict) (msgs : list val) (message : dict)
    (rest : list dict) (e : exn) :
  Forall2 (fun m s => serialize (VDict m) = Ok s) before msgs ->
  serialize (VDict message) = Raise e ->
  forall start st,
    io_for (enumerate_from start (before ++ message :: rest)) (put_message key) st
    = (Raise e, Store (foldl (insert_row key) (table st) (rows start msgs))
                      (requests st
                       ++ map (fun r => PutItem key (fst r) (snd r)) (rows start msgs))).
Proof.
  intros Hser Hm.
  induction Hser as [|m s before msgs Hs _ IH]; intros start st; simpl.
  - unfold io_bind. rewrite (put_message_raise key start message e st Hm).
    rewrite app_nil_r. destruct st; reflexivity.
  - unfold io_bind at 1. rewrite (put_message_ok key start m s st Hs).
    rewrite IH. simpl. rewrite <- app_assoc. reflexivity.
Qed.

Lemma put_loop_other key pk rk (ims : list (Z * dict)) :
  pk <> key ->
  forall st,
    table (snd (io_for ims (put_message key) st)) !! (pk, rk) = table st !! (pk, rk).
Proof.
  intros Hne. induction ims as [|[i m] ims IH]; intros st; simpl; [reflexivity|].
  unfold io_bind at 1.
  destruct (serialize (VDict m)) as [s|e] eqn:Hs.
  - rewrite (put_message_ok key i m s st Hs). rewrite IH. simpl.
    apply lookup_insert_ne. congruence.
  - rewrite (put_message_raise key i m e st Hs). reflexivity.
Qed.

(** The rows written over a cleared partition are what it holds. *)
Lemma written_holds key t rs :
  NoDup (map fst rs) ->
  holds key
    (foldl (insert_row key)
       (foldl (delete_row key) t (merge_sort rowkey_le (partition key t))) rs) rs.
Proof.
  intros Hnd rk v. rewrite lookup_put_all by exact Hnd.
  split; [|auto].
  intros [H|[_ H]]; [exact H|].
  apply lookup_delete_all in H as [H Hnot].
  exfalso. apply Hnot. apply list_elem_of_fmap. exists (rk, v). split; [reflexivity|].
  rewrite merge_sort_Permutation. apply elem_of_partition. exact H.
Qed.

Lemma plain_serialized (messages : list dict) :
  Forall (fun m => plain (VDict m) = true) messages ->
  exists msgs, Forall2 (fun m s => serialize (VDict m) = Ok s) messages msgs.
Proof.
  intros Hplain. apply Forall_exists_Forall2.
  eapply Forall_impl; [exact Hplain|].
  intros m Hm. destruct (serialize_plain m Hm) as (out & Hout). eauto.
Qed.

(** X16. [set_messages] is not atomic. When [serialize] refuses one of
    the messages, the call raises that error after the delete requests
    for the old history of the key and the put requests for the messages
    before the refused one were written to the batch, in that order. With
    these requests applied, as for every batch here, the partition holds
    the messages before the refused one and nothing else, and nothing at
    all when the first message is the refused one. *)
Theorem set_messages_stops_at_failure key (before : list dict) (message : dict)
    (rest : list dict) (e : exn) st :
  Z.of_nat (List.length before) <= 10 ^ 10 ->
  Forall (fun m => plain (VDict m) = true) before ->
  serialize (VDict message) = Raise e ->
  exists msgs st1,
    Forall2 (fun m s => serialize (VDict m) = Ok s) before msgs
    /\ set_messages key (before ++ message :: rest) st = (Raise e, st1)
    /\ (forall rk v, table st1 !! (key, rk) = Some v <-> (rk, v) ∈ rows 0 msgs)
    /\ (before = [] -> get_messages key st1 = (Ok [], sent st1 (Query key))).
Proof.
  intros Hlen Hplain Hm.
  destruct (plain_serialized before Hplain) as (msgs & Hser).
  pose proof (Forall2_length _ _ _ Hser) as Hn.
  exists msgs. eexists. split; [exact Hser|]. split.
  - rewrite set_messages_unfold. unfold enumerate.
    apply (put_loop_raise key before msgs message rest e Hser Hm).
  - simpl table.
    assert (Hholds : holds key
              (foldl (insert_row key)
                 (foldl (delete_row key) (table st)
                    (merge_sort rowkey_le (partition key (table st)))) (rows 0 msgs))
              (rows 0 msgs)).
    { apply written_holds. apply rows_NoDup; lia. }
    split; [exact Hholds|].
    intros ->. apply Forall2_nil_inv_l in Hser. subst msgs.
    apply (get_messages_rows key _ [] []); [exact Hholds|constructor|constructor].
Qed.

Lemma set_messages_stops_at_failure_witness :
  exists msgs st1,
    Forall2 (fun m s => serialize (VDict m) = Ok s) [msgA] msgs
    /\ set_messages "conv1" ([msgA] ++ msg_object :: [msgB]) store3
       = (Raise (unsupported_type_error (VObject "object") "content"), st1)
    /\ (forall rk v, table st1 !! ("conv1", rk) = Some v <-> (rk, v) ∈ rows 0 msgs)
    /\ ([msgA] = [] -> get_messages "conv1" st1 = (Ok [], sent st1 (Query "conv1"))).
Proof.
  apply (set_messages_stops_at_failure "conv1" [msgA] msg_object [msgB]
           (unsupported_type_error (VObject "object") "content") store3).
  - vm_compute. discriminate.
  - repeat constructor.
  - reflexivity.
Defined.

Lemma get_messages_table key st : table (snd (get_messages key st)) = table st.
Proof. rewrite get_messages_spec. reflexivity. Qed.

(** X17. No call on one key changes what the table holds under another
    key, whether the call returns or raises; [get_messages] and
    [get_keys] change nothing in the table. *)
Theorem other_keys_untouched key pk rk st :
  pk <> key ->
  (forall messages,
      table (snd (set_messages key messages st)) !! (pk, rk) = table st !! (pk, rk))
  /\ (forall message idx,
      table (snd (add_message key message idx st)) !! (pk, rk) = table st !! (pk, rk))
  /\ table (snd (delete_messages key st)) !! (pk, rk) = table st !! (pk, rk)
  /\ (forall idx,
      table (snd (delete_message key idx st)) !! (pk, rk) = table st !! (pk, rk))
  /\ table (snd (delete_last_message key st)) !! (pk, rk) = table st !! (pk, rk)
  /\ table (snd (get_messages key st)) = table st
  /\ table (snd (get_keys st)) = table st.
Proof.
  intros Hne.
  assert (Hkey : forall r, (key, r) <> (pk, rk)) by (intros r; congruence).
  split; [|split; [|split; [|split; [|split; [|split]]]]].
  - intros messages. rewrite set_messages_unfold, put_loop_other by exact Hne.
    simpl. apply lookup_delete_all_other. exact Hne.
  - intros message idx.
    destruct (get_messages key st) as [[messages|e] st'] eqn:Hget.
    + pose proof (get_messages_table key st) as Ht. rewrite Hget in Ht. simpl in Ht.
      rewrite (add_message_spec key message idx st messages st' Hget). cbv zeta.
      destruct idx as [i|].
      * destruct (i >? _); [simpl; rewrite Ht; reflexivity|].
        destruct (serialize (VDict message)); simpl; rewrite Ht;
          [apply lookup_insert_ne, Hkey|reflexivity].
      * destruct (serialize (VDict message)); simpl; rewrite Ht;
          [apply lookup_insert_ne, Hkey|reflexivity].
    + pose proof (get_messages_table key st) as Ht. rewrite Hget in Ht. simpl in Ht.
      unfold add_message, io_bind at 1. rewrite Hget. simpl. rewrite Ht. reflexivity.
  - unfold delete_messages, io_bind. rewrite query_spec, delete_all_spec. simpl.
    apply lookup_delete_all_other. exact Hne.
  - intros idx. simpl. apply lookup_delete_ne, Hkey.
  - pose proof (get_messages_table key st) as Ht.
    unfold delete_last_message, io_bind.
    destruct (get_messages key st) as [[messages|e] st']; simpl in Ht |- *.
    + rewrite <- Ht. apply lookup_delete_ne, Hkey.
    + rewrite Ht. reflexivity.
  - apply get_messages_table.
  - reflexivity.
Qed.

Lemma other_keys_untouched_witness :
  (forall messages,
      table (snd (set_messages "conv2" messages store3)) !! ("conv1", _to_row_key 0)
      = table store3 !! ("conv1", _to_row_key 0))
  /\ (forall message idx,
      table (snd (add_message "conv2" message idx store3)) !! ("conv1", _to_row_key 0)
      = table store3 !! ("conv1", _to_row_key 0))
  /\ table (snd (delete_messages "conv2" store3)) !! ("conv1", _to_row_key 0)
     = table store3 !! ("conv1", _to_row_key 0)
  /\ (forall idx,
      table (snd (delete_message "conv2" idx store3)) !! ("conv1", _to_row_key 0)
      = table store3 !! ("conv1", _to_row_key 0))
  /\ table (snd (delete_last_message "conv2" store3)) !! ("conv1", _to_row_key 0)
     = table store3 !! ("conv1", _to_row_key 0)
  /\ table (snd (get_messages "conv2" store3)) = table store3
  /\ table (snd (get_keys store3)) = table store3.
Proof.
  apply (other_keys_untouched "conv2" "conv1" (_to_row_key 0) store3).
  discriminate.
Defined.

(** X18. [get_messages] returns all of a history or nothing: one item
    under the key that does not decode into a message makes the call
    raise; when it returns, it returns one message for each item under
    the key, each item decoding to one of them. *)
Theorem get_messages_all_or_nothing key st :
  (forall rk v e,
      table st !! (key, rk) = Some v ->
      (let* d := deserialize v in parse_obj d) = Raise e ->
      exists e', fst (get_messages key st) = Raise e')
  /\ (forall messages,
      fst (get_messages key st) = Ok messages ->
      List.length messages = List.length (partition key (table st))
      /\ forall rk v,
           table st !! (key, rk) = Some v ->
           exists m, In m messages /\ deserialize v = Ok (VDict m)).
Proof.
  rewrite get_messages_spec. simpl. split.
  - intros rk v e Hlook Hdec.
    apply (mapM_fails _ _ (rk, v) e); [|exact Hdec].
    apply list_elem_of_In. rewrite merge_sort_Permutation.
    apply elem_of_partition. exact Hlook.
  - intros messages Hget. apply mapM_Forall2 in Hget. split.
    + apply Forall2_length in Hget. rewrite <- Hget.
      rewrite merge_sort_Permutation. reflexivity.
    + intros rk v Hlook.
      assert (Hin : In (rk, v) (merge_sort rowkey_le (partition key (table st)))).
      { apply list_elem_of_In. rewrite merge_sort_Permutation.
        apply elem_of_partition. exact Hlook. }
      destruct (Forall2_In_l _ _ _ _ Hget Hin) as (m & Hm & Hdec).
      exists m. split; [exact Hm|]. apply (decode_ok (rk, v) m). exact Hdec.
Qed.

(** X19. [get_keys] lists exactly the keys whose history is not empty:
    a key is left out exactly when [get_messages] returns the empty list
    for it. *)
Theorem get_keys_lists_histories st :
  exists keys,
    get_keys st = (Ok keys, sent st Scan)
    /\ forall key, key ∉ keys <-> fst (get_messages key st) = Ok [].
Proof.
  destruct (get_keys_spec st) as (keys & Hkeys & Hspec).
  exists keys. split; [exact Hkeys|].
  intros key. rewrite Hspec. split.
  - intros Hnone. rewrite get_messages_spec. simpl.
    rewrite partition_empty; [reflexivity|].
    intros rk. destruct (table st !! (key, rk)) as [v|] eqn:E; [|reflexivity].
    exfalso. apply Hnone. eauto.
  - intros Hempty (rk & msg & Hlook).
    rewrite (get_messages_empty key st Hempty rk) in Hlook. discriminate Hlook.
Qed.

(** X20. [delete_messages] raises nothing and leaves no item under the
    key: [get_messages] then returns the empty list, [get_keys] no longer
    lists the key, and the items of the other keys are as before. *)
Theorem delete_messages_empties key st :
  exists st1,
    delete_messages key st = (Ok tt, st1)
    /\ (forall rk, table st1 !! (key, rk) = None)
    /\ get_messages key st1 = (Ok [], sent st1 (Query key))
    /\ (exists keys, get_keys st1 = (Ok keys, sent st1 Scan) /\ key ∉ keys)
    /\ (forall pk rk, pk <> key -> table st1 !! (pk, rk) = table st !! (pk, rk)).
Proof.
  destruct (delete_messages_clears key st) as (st1 & st2 & Hdel & Hget & Hother).
  assert (Hnone : forall rk, table st1 !! (key, rk) = None).
  { apply get_messages_empty. rewrite Hget. reflexivity. }
  exists st1. split; [exact Hdel|]. split; [exact Hnone|]. split.
  - rewrite get_messages_spec in Hget |- *. injection Hget as Hm _.
    rewrite Hm. reflexivity.
  - split; [|exact Hother].
    destruct (get_keys_spec st1) as (keys & Hkeys & Hspec).
    exists keys. split; [exact Hkeys|].
    rewrite Hspec. intros (rk & msg & Hlook).
    rewrite Hnone in Hlook. discriminate Hlook.
Qed.

(** X21. One message with a boolean among its fields makes the history
    unusable: [set_messages] stores it without an error, after which
    [get_messages] raises, and so do [add_message] and
    [delete_last_message], which read the history first. *)
Theorem boolean_message_blocks_history key (messages : list dict) (m : dict)
    (k : string) (b : bool) st :
  Z.of_nat (List.length messages) <= 10 ^ 10 ->
  Forall (fun m => plain (VDict m) = true) messages ->
  In m messages -> distinct (map fst m) = true -> In (k, VBool b) m ->
  exists st1 e,
    set_messages key messages st = (Ok tt, st1)
    /\ get_messages key st1 = (Raise e, sent st1 (Query key))
    /\ (forall message idx,
          add_message key message idx st1 = (Raise e, sent st1 (Query key)))
    /\ delete_last_message key st1 = (Raise e, sent st1 (Query key)).
Proof.
  intros Hlen Hplain Hin Hd Hb.
  destruct (plain_serialized messages Hplain) as (msgs & Hser).
  pose proof (Forall2_length _ _ _ Hser) as Hn.
  assert (Hnd : NoDup (map fst (rows 0 msgs))) by (apply rows_NoDup; lia).
  destruct (set_messages_spec key messages msgs st Hser Hnd) as (st1 & Hset & Hrows).
  destruct (Forall2_In_l _ _ _ _ Hser Hin) as (s & Hs & Hms).
  destruct (bool_field_raises m k b s Hd Hb Hms) as (e0 & He0).
  apply list_elem_of_In, list_elem_of_lookup in Hs as (j & Hj).
  assert (Hlook : table st1 !! (key, _to_row_key (0 + Z.of_nat j)) = Some s).
  { apply Hrows. apply elem_of_rows. eauto. }
  assert (Hget : exists e, get_messages key st1 = (Raise e, sent st1 (Query key))).
  { rewrite get_messages_spec.
    destruct (mapM_fails (fun item => let* d := deserialize (snd item) in parse_obj d)
                (merge_sort rowkey_le (partition key (table st1)))
                (_to_row_key (0 + Z.of_nat j), s) e0) as (e & He).
    - apply list_elem_of_In. rewrite merge_sort_Permutation.
      apply elem_of_partition. exact Hlook.
    - simpl. rewrite He0. reflexivity.
    - exists e. rewrite He. reflexivity. }
  destruct Hget as (e & Hget).
  exists st1, e. split; [exact Hset|]. split; [exact Hget|]. split.
  - intros message idx. unfold add_message, io_bind at 1. rewrite Hget. reflexivity.
  - unfold delete_last_message, io_bind. rewrite Hget. reflexivity.
Qed.

Lemma boolean_message_blocks_history_witness :
  exists st1 e,
    set_messages "conv1" [msgA; msg_done] empty_store = (Ok tt, st1)
    /\ get_messages "conv1" st1 = (Raise e, sent st1 (Query "conv1"))
    /\ (forall message idx,
          add_message "conv1" message idx st1 = (Raise e, sent st1 (Query "conv1")))
    /\ delete_last_message "conv1" st1 = (Raise e, sent st1 (Query "conv1")).
Proof.
  apply (boolean_message_blocks_history "conv1" [msgA; msg_done] msg_done "done" true
           empty_store).
  - vm_compute. discriminate.
  - repeat constructor.
  - right. left. reflexivity.
  - reflexivity.
  - right. right. left. reflexivity.
Defined.

End Failures.
